(** * shop3: barcode checkout helper

    A shallow embedding of the inventory hook ([useInventory]) and of the
    checkout logic of [App.tsx], with the properties of the catalog store,
    the cart accumulator and the import/export gateway.

    Conventions.  A TypeScript [string] is a [string]; a [number] is an IEEE
    binary64 value ([float]); [T | undefined] is [option T].  React state is
    threaded explicitly: an updater [setX (prev => e)] becomes a function from
    the previous value to the next one, and an event handler becomes a
    function on the record of all state cells of the component.  No code of
    the repository mutates an object or an array in place (every update goes
    through a spread, [map] or [filter]), so objects are modelled as values.

    The catalog operations and the cart are modelled on typed data
    ([list Product]), as their TypeScript signatures state.  Loading,
    importing and exporting go through [JSON.parse] and [JSON.stringify],
    which know nothing of [Product]; they are modelled on JSON values, with
    the two built-ins written out after ECMA-262 so that payloads can be
    evaluated. *)

From Stdlib Require Import List String Ascii Bool Arith ZArith QArith Lia Floats.
From Stdlib Require Import DecimalString Sorted.
Import ListNotations.

Set Warnings "-inexact-float,-register-all".

Close Scope Q_scope.

Local Open Scope string_scope.
Local Open Scope list_scope.

(** JS numbers. *)
Definition number : Set := float.

(* ------------------------------------------------------------------ *)
(** * Data model (useInventory.ts, App.tsx) *)

(** [export interface Product]. *)
Module Product.
Record t : Set := mk {
    id : string;
    barcode : string;
    name : string;
    price : number;
    stock : number;
    category : option string
}.
End Product.
Abbreviation Product := Product.t.

(** [Partial<Product>]: every field optional. *)
Module Partial.
Record t : Set := mk {
    id : option string;
    barcode : option string;
    name : option string;
    price : option number;
    stock : option number;
    category : option string
}.
End Partial.

(** An element of the cart: [{ product: Product; quantity: number }]. *)
Module Item.
Record t : Set := mk {
    product : Product;
    quantity : number
}.
End Item.
Abbreviation Item := Item.t.

(* ------------------------------------------------------------------ *)
(** * Catalog store (useInventory.ts) *)

(** [setProducts(prev => [...prev, product])] *)
Definition addProduct (product : Product) (prev : list Product) : list Product :=
  prev ++ [product].

(** [setProducts(prev => prev.map(p => p.id === updatedProduct.id ? updatedProduct : p))] *)
Definition updateProduct (updatedProduct : Product) (prev : list Product)
  : list Product :=
  map (fun p => if Product.id p =? Product.id updatedProduct
                then updatedProduct else p) prev.

(** [setProducts(prev => prev.filter(p => p.id !== id))] *)
Definition deleteProduct (id : string) (prev : list Product) : list Product :=
  filter (fun p => negb (Product.id p =? id)) prev.

(** [products.find(p => p.barcode === barcode)] *)
Definition findByBarcode (products : list Product) (barcode : string)
  : option Product :=
  find (fun p => Product.barcode p =? barcode) products.

(* ------------------------------------------------------------------ *)
(** * Checkout (App.tsx) *)

Inductive Toast : Set :=
| toast_success (msg : string)
| toast_error (msg : string).

(** The state cells of [App] that the checkout and the inventory touch,
    and the notifications emitted so far (most recent first). *)
Record App : Set := mkApp {
  products : list Product;
  cart : list Item;
  isScanning : bool;
  isModalOpen : bool;
  editingProduct : option Partial.t;
  toasts : list Toast
}.

Definition setProducts (f : list Product -> list Product) (st : App) : App :=
  mkApp (f (products st)) (cart st) (isScanning st) (isModalOpen st)
        (editingProduct st) (toasts st).

Definition setCart (f : list Item -> list Item) (st : App) : App :=
  mkApp (products st) (f (cart st)) (isScanning st) (isModalOpen st)
        (editingProduct st) (toasts st).

Definition setIsScanning (b : bool) (st : App) : App :=
  mkApp (products st) (cart st) b (isModalOpen st)
        (editingProduct st) (toasts st).

Definition setIsModalOpen (b : bool) (st : App) : App :=
  mkApp (products st) (cart st) (isScanning st) b
        (editingProduct st) (toasts st).

Definition setEditingProduct (e : option Partial.t) (st : App) : App :=
  mkApp (products st) (cart st) (isScanning st) (isModalOpen st)
        e (toasts st).

Definition toast (t : Toast) (st : App) : App :=
  mkApp (products st) (cart st) (isScanning st) (isModalOpen st)
        (editingProduct st) (t :: toasts st).

Definition initialApp : App := mkApp [] [] false false None [].

(** [cart.reduce((sum, item) => sum + item.product.price * item.quantity, 0)] *)
Definition totalAmount (cart : list Item) : number :=
  fold_left
    (fun sum item => (sum + Product.price (Item.product item) * Item.quantity item)%float)
    cart 0%float.

(** The updater passed to [setCart] by [handleScan]. *)
Definition scanInto (product : Product) (barcode : string) (prev : list Item)
  : list Item :=
  match find (fun item => Product.barcode (Item.product item) =? barcode) prev with
  | Some _ =>
      map (fun item =>
             if Product.barcode (Item.product item) =? barcode
             then Item.mk (Item.product item) (Item.quantity item + 1)%float
             else item) prev
  | None => prev ++ [Item.mk product 1%float]
  end.

Definition handleScan (barcode : string) (st : App) : App :=
  let st' :=
    match findByBarcode (products st) barcode with
    | Some product =>
        toast (toast_success ("已添加: " ++ Product.name product))
              (setCart (scanInto product barcode) st)
    | None =>
        setIsModalOpen true
          (setEditingProduct
             (Some (Partial.mk None (Some barcode) (Some "") (Some 0%float)
                               (Some 0%float) None))
             (toast (toast_error ("未找到条码: " ++ barcode)) st))
    end in
  setIsScanning false st'.

(** The cart buttons: remove the line at [idx], clear the cart. *)
Fixpoint removeAt {A : Type} (idx : nat) (l : list A) : list A :=
  match l, idx with
  | [], _ => []
  | _ :: l', O => l'
  | x :: l', S i => x :: removeAt i l'
  end.

Definition removeLine (idx : nat) (st : App) : App := setCart (removeAt idx) st.
Definition clearCart (st : App) : App := setCart (fun _ => []) st.

(** The scan button: [setIsScanning(!isScanning)]. *)
Definition toggleScanning (st : App) : App := setIsScanning (negb (isScanning st)) st.

(** The events the component reacts to: a decoded barcode from the scanner,
    the scan button, the cart buttons and the catalog operations of the
    inventory tab. *)
Inductive Event : Set :=
| Scanned (barcode : string)
| ScanButton
| RemoveLine (idx : nat)
| ClearCart
| ProductAdded (product : Product)
| ProductUpdated (updatedProduct : Product)
| ProductDeleted (id : string).

Definition step (ev : Event) (st : App) : App :=
  match ev with
  | Scanned barcode => handleScan barcode st
  | ScanButton => toggleScanning st
  | RemoveLine idx => removeLine idx st
  | ClearCart => clearCart st
  | ProductAdded product => setProducts (addProduct product) st
  | ProductUpdated updatedProduct => setProducts (updateProduct updatedProduct) st
  | ProductDeleted id => setProducts (deleteProduct id) st
  end.

(** The events that change the catalog. *)
Definition catalog_event (ev : Event) : bool :=
  match ev with
  | ProductAdded _ | ProductUpdated _ | ProductDeleted _ => true
  | _ => false
  end.

Definition steps (evs : list Event) (st : App) : App :=
  fold_left (fun st ev => step ev st) evs st.

(* ------------------------------------------------------------------ *)
(** * Sequences of catalog operations *)

Inductive Op : Set :=
| Add (product : Product)
| Update (updatedProduct : Product)
| Delete (id : string).

Definition apply_op (op : Op) (prev : list Product) : list Product :=
  match op with
  | Add product => addProduct product prev
  | Update updatedProduct => updateProduct updatedProduct prev
  | Delete id => deleteProduct id prev
  end.

(** The catalog after a sequence of operations, from the empty catalog
    ([useState<Product[]>([])]). *)
Definition run (ops : list Op) : list Product :=
  fold_left (fun prev op => apply_op op prev) ops [].

(** The ids supplied to [addProduct], in call order. *)
Fixpoint added_ids (ops : list Op) : list string :=
  match ops with
  | [] => []
  | Add product :: ops' => Product.id product :: added_ids ops'
  | _ :: ops' => added_ids ops'
  end.

(** [added_before ops i j]: id [i] was added strictly before id [j]. *)
Definition added_before (ops : list Op) (i j : string) : Prop :=
  exists l1 l2 l3, added_ids ops = l1 ++ i :: l2 ++ j :: l3.

(** The field values an entry added as [p] carries after the operations
    [post]: those of the most recent update naming its id, of [p] itself
    when there is none. *)
Definition latest (i : string) (post : list Op) (p : Product) : Product :=
  fold_left
    (fun acc op =>
       match op with
       | Update u => if Product.id u =? i then u else acc
       | _ => acc
       end)
    post p.

(** Whether some entry of the catalog has id [i]. *)
Definition present (l : list Product) (i : string) : bool :=
  existsb (fun p => Product.id p =? i) l.

(** The same run with every entry tagged by the position, in the sequence,
    of the add that created it.  An update keeps the tag of the entry it
    replaces. *)
Definition apply_tagged (t : nat) (op : Op) (prev : list (nat * Product))
  : list (nat * Product) :=
  match op with
  | Add product => prev ++ [(t, product)]
  | Update updatedProduct =>
      map (fun e => (fst e, if Product.id (snd e) =? Product.id updatedProduct
                            then updatedProduct else snd e)) prev
  | Delete id => filter (fun e => negb (Product.id (snd e) =? id)) prev
  end.

Fixpoint run_tagged_from (t : nat) (ops : list Op) (prev : list (nat * Product))
  : list (nat * Product) :=
  match ops with
  | [] => prev
  | op :: ops' => run_tagged_from (S t) ops' (apply_tagged t op prev)
  end.

Definition run_tagged (ops : list Op) : list (nat * Product) :=
  run_tagged_from 0 ops [].

(** Entries in increasing order of their tags. *)
Definition by_age (l : list (nat * Product)) : Prop :=
  StronglySorted (fun e e' => fst e < fst e') l.

(** The barcode a cart line was created for, and the line with one more unit. *)
Definition line_barcode (item : Item) : string :=
  Product.barcode (Item.product item).

(** Whether a cart line was created for barcode [b]. *)
Definition hit (b : string) (item : Item) : bool := line_barcode item =? b.

Definition bump (item : Item) : Item :=
  Item.mk (Item.product item) (Item.quantity item + 1)%float.

(* ------------------------------------------------------------------ *)
(** * JSON values and texts *)

(** The values [JSON.parse] can return. *)
Inductive value : Set :=
| JNull
| JBool (b : bool)
| JNumber (x : number)
| JString (s : string)
| JArray (elements : list value)
| JObject (members : list (string * value)).

(** A text is a sequence of bytes (UTF-8 for characters outside ASCII). *)
Definition text : Set := list ascii.

Definition DQUOTE : ascii := Eval compute in ascii_of_nat 34.
Definition BACKSLASH : ascii := Eval compute in ascii_of_nat 92.
Definition LF : ascii := Eval compute in ascii_of_nat 10.
Definition CR : ascii := Eval compute in ascii_of_nat 13.
Definition TAB : ascii := Eval compute in ascii_of_nat 9.
Definition BS : ascii := Eval compute in ascii_of_nat 8.
Definition FF : ascii := Eval compute in ascii_of_nat 12.

Definition chars (s : string) : text := list_ascii_of_string s.

Definition is_ws (c : ascii) : bool :=
  (c =? " ")%char || (c =? TAB)%char || (c =? LF)%char || (c =? CR)%char.

Definition is_digit (c : ascii) : bool :=
  let n := nat_of_ascii c in (48 <=? n)%nat && (n <=? 57)%nat.

Definition digit_value (c : ascii) : Z := Z.of_nat (nat_of_ascii c) - 48.

Fixpoint skip_ws (s : text) : text :=
  match s with
  | c :: r => if is_ws c then skip_ws r else s
  | [] => []
  end.

(** The longest prefix whose characters satisfy [p], and the rest. *)
Fixpoint span (p : ascii -> bool) (s : text) : text * text :=
  match s with
  | c :: r => if p c then let (a, b) := span p r in (c :: a, b) else ([], s)
  | [] => ([], [])
  end.

Fixpoint strip_prefix (p s : text) : option text :=
  match p, s with
  | [], _ => Some s
  | a :: p', b :: s' => if (a =? b)%char then strip_prefix p' s' else None
  | _ :: _, [] => None
  end.

(* ------------------------------------------------------------------ *)
(** ** Numbers: decimal text to binary64 and back *)

Definition Z_of_digits (ds : text) : Z :=
  fold_left (fun acc c => 10 * acc + digit_value c)%Z ds 0%Z.

(** The binary64 value nearest to [m * 10^e] ([m >= 0]), ties to even;
    [n] is the number of decimal digits of [m]. *)
Definition decimal_to_SF (neg : bool) (m : Z) (n : Z) (e : Z) : spec_float :=
  if (m =? 0)%Z then S754_zero neg
  else if (310 <? e + n)%Z then S754_infinity neg
  else if (e + n <? -330)%Z then S754_zero neg
  else if (0 <=? e)%Z then
    binary_round prec emax neg (Z.to_pos (m * 10 ^ e)) 0
  else
    let d := (10 ^ (- e))%Z in
    let s := (1140 + Z.log2 d)%Z in
    let q := ((m * 2 ^ s) / d)%Z in
    let r := ((m * 2 ^ s) mod d)%Z in
    binary_round_aux prec emax neg q (- s)
      (if (r =? 0)%Z then loc_Exact else loc_Inexact (Z.compare (2 * r) d)).

Definition drop_zeros (ds : text) : text := snd (span (fun c => (c =? "0")%char) ds).

Definition decimal_to_number (neg : bool) (ds : text) (e : Z) : number :=
  SF2Prim (decimal_to_SF neg (Z_of_digits ds)
                         (Z.of_nat (List.length (drop_zeros ds))) e).

Definition is_number_char (c : ascii) : bool :=
  is_digit c || (c =? "-")%char || (c =? "+")%char || (c =? ".")%char
  || (c =? "e")%char || (c =? "E")%char.

(** A complete JSON number token: an optional minus sign; an integer part,
    either a single 0 or digits not starting with 0; an optional fraction, a
    dot and at least one digit; an optional exponent, e or E, an optional
    sign and at least one digit. *)
Definition parse_number_token (tok : text) : option number :=
  let (neg, t1) := match tok with
                   | c :: t => if (c =? "-")%char then (true, t) else (false, tok)
                   | [] => (false, [])
                   end in
  let (int, t2) := span is_digit t1 in
  let int_ok := match int with
                | [] => false
                | c :: r => negb (c =? "0")%char || match r with [] => true | _ => false end
                end in
  let '(frac, frac_ok, t3) :=
    match t2 with
    | c :: t => if (c =? ".")%char
                then let (f, t') := span is_digit t in
                     (f, match f with [] => false | _ => true end, t')
                else ([], true, t2)
    | [] => ([], true, t2)
    end in
  let '(exp, exp_ok, t4) :=
    match t3 with
    | c :: t =>
        if (c =? "e")%char || (c =? "E")%char then
          let (eneg, t') :=
            match t with
            | c' :: t'' => if (c' =? "-")%char then (true, t'')
                           else if (c' =? "+")%char then (false, t'')
                           else (false, t)
            | [] => (false, t)
            end in
          let (ed, t'') := span is_digit t' in
          ((if eneg then - Z_of_digits ed else Z_of_digits ed)%Z,
           match ed with [] => false | _ => true end, t'')
        else (0%Z, true, t3)
    | [] => (0%Z, true, t3)
    end in
  match t4 with
  | [] => if int_ok && frac_ok && exp_ok
          then Some (decimal_to_number neg (int ++ frac)
                                       (exp - Z.of_nat (List.length frac)))
          else None
  | _ :: _ => None
  end.

(** *** Number::toString, radix 10 *)

Definition digits_of (s : Z) : text :=
  chars (NilZero.string_of_uint (N.to_uint (Z.to_N s))).

(** The least [n] with [a / b < 10^n], for the positive rational [a / b].
    Upwards from [n], with [bp = b * 10^n], when [10^(n-1) <= a / b]. *)
Fixpoint magnitude_up (fuel : nat) (a bp n : Z) : Z :=
  match fuel with
  | O => n
  | S fuel' => if (a <? bp)%Z then n else magnitude_up fuel' a (10 * bp) (n + 1)
  end.

(** Downwards, with [ap = a * 10^k], when [a / b < 10^(1-k)]. *)
Fixpoint magnitude_down (fuel : nat) (ap b k : Z) : Z :=
  match fuel with
  | O => 1 - k
  | S fuel' => if (ap <? b)%Z then magnitude_down fuel' (10 * ap) b (k + 1)
               else 1 - k
  end.

Definition magnitude (a b : Z) : Z :=
  if (a <? b)%Z then magnitude_down 400 (10 * a) b 1
  else magnitude_up 400 a (10 * b) 1.

(** Whether the decimal [s * 10^(n-k)] ([k] digits) reads back as the
    binary64 number [mx * 2^ex]. *)
Definition reads_back (mx : positive) (ex : Z) (s k n : Z) : bool :=
  SFeqb (decimal_to_SF false s k (n - k)) (S754_finite false mx ex).

(** The digits [s], their count [k] and the position [n] of the decimal
    point for the positive number [mx * 2^ex = a / b], searched from [k]
    digits on: the first count for which a decimal of that many digits reads
    back as the number; of the two candidates around the number, the closer
    one is taken (the even one on a tie).  Seventeen digits always suffice. *)
Fixpoint shortest (fuel : nat) (mx : positive) (ex : Z) (a b n k : Z)
  : Z * Z * Z :=
  (* x / 10^(n-k) = p / q *)
  let p := (if n - k <? 0 then a * 10 ^ (k - n) else a)%Z in
  let q := (if n - k <? 0 then b else b * 10 ^ (n - k))%Z in
  let lo := (p / q)%Z in
  let hi := (lo + 1)%Z in
  let '(hs, hn) := if (hi =? 10 ^ k)%Z then (10 ^ (k - 1), n + 1)%Z else (hi, n) in
  let lo_ok := reads_back mx ex lo k n in
  let hi_ok := reads_back mx ex hs k hn in
  let pick_hi :=
    match (2 * p ?= (2 * lo + 1) * q)%Z with
    | Lt => false
    | Gt => true
    | Eq => Z.odd lo
    end in
  match fuel with
  | O => (lo, k, n)
  | S fuel' =>
      if lo_ok && hi_ok then (if pick_hi then (hs, k, hn) else (lo, k, n))
      else if lo_ok then (lo, k, n)
      else if hi_ok then (hs, k, hn)
      else shortest fuel' mx ex a b n (k + 1)
  end.

Definition zeros (n : Z) : text := repeat "0"%char (Z.to_nat n).

(** The layout rules of Number::toString for digits [s] ([k] of them) and
    decimal point position [n]. *)
Definition layout (s k n : Z) : text :=
  let ds := digits_of s in
  if (k <=? n)%Z && (n <=? 21)%Z then ds ++ zeros (n - k)
  else if (0 <? n)%Z && (n <=? 21)%Z then
    firstn (Z.to_nat n) ds ++ "."%char :: skipn (Z.to_nat n) ds
  else if (-6 <? n)%Z && (n <=? 0)%Z then
    "0"%char :: "."%char :: zeros (- n) ++ ds
  else
    let e := (n - 1)%Z in
    let exp := (if (e <? 0)%Z then "-"%char else "+"%char) :: digits_of (Z.abs e) in
    match ds with
    | d :: (_ :: _) as r => d :: "."%char :: r ++ "e"%char :: exp
    | _ => ds ++ "e"%char :: exp
    end.

Definition Number_toString (x : number) : text :=
  match Prim2SF x with
  | S754_nan => chars "NaN"
  | S754_zero _ => chars "0"
  | S754_infinity neg => (if neg then chars "-" else []) ++ chars "Infinity"
  | S754_finite neg mx ex =>
      let a := (if 0 <=? ex then Zpos mx * 2 ^ ex else Zpos mx)%Z in
      let b := (if 0 <=? ex then 1 else 2 ^ (- ex))%Z in
      let n := magnitude a b in
      let '(s, k, n') := shortest 17 mx ex a b n 1 in
      (if neg then chars "-" else []) ++ layout s k n'
  end.

(* ------------------------------------------------------------------ *)
(** ** Strings *)

Definition hex_digit (n : nat) : ascii := nth n (chars "0123456789abcdef") "0"%char.

(** QuoteJSONString, one character at a time. *)
Definition quote_char (c : ascii) : text :=
  if (c =? DQUOTE)%char then [BACKSLASH; DQUOTE]
  else if (c =? BACKSLASH)%char then [BACKSLASH; BACKSLASH]
  else if (c =? BS)%char then [BACKSLASH; "b"%char]
  else if (c =? FF)%char then [BACKSLASH; "f"%char]
  else if (c =? LF)%char then [BACKSLASH; "n"%char]
  else if (c =? CR)%char then [BACKSLASH; "r"%char]
  else if (c =? TAB)%char then [BACKSLASH; "t"%char]
  else if (nat_of_ascii c <? 32)%nat then
    [BACKSLASH; "u"%char; "0"%char; "0"%char;
     hex_digit (nat_of_ascii c / 16); hex_digit (nat_of_ascii c mod 16)]
  else [c].

Definition quote (s : string) : text :=
  DQUOTE :: flat_map quote_char (chars s) ++ [DQUOTE].

Definition hex_value (c : ascii) : option N :=
  let n := N_of_ascii c in
  if is_digit c then Some (n - 48)%N
  else if (97 <=? n)%N && (n <=? 102)%N then Some (n - 87)%N
  else if (65 <=? n)%N && (n <=? 70)%N then Some (n - 55)%N
  else None.

Definition hex4 (a b c d : ascii) : option N :=
  match hex_value a, hex_value b, hex_value c, hex_value d with
  | Some x, Some y, Some z, Some w => Some (((x * 16 + y) * 16 + z) * 16 + w)%N
  | _, _, _, _ => None
  end.

(** The UTF-8 bytes of a code point (a lone surrogate is written in the
    same three-byte form). *)
Definition utf8 (cp : N) : text :=
  if (cp <? 128)%N then [ascii_of_N cp]
  else if (cp <? 2048)%N then
    [ascii_of_N (192 + cp / 64); ascii_of_N (128 + cp mod 64)]
  else if (cp <? 65536)%N then
    [ascii_of_N (224 + cp / 4096); ascii_of_N (128 + (cp / 64) mod 64);
     ascii_of_N (128 + cp mod 64)]
  else
    [ascii_of_N (240 + cp / 262144); ascii_of_N (128 + (cp / 4096) mod 64);
     ascii_of_N (128 + (cp / 64) mod 64); ascii_of_N (128 + cp mod 64)].

Definition unescape (c : ascii) : option ascii :=
  if (c =? DQUOTE)%char then Some DQUOTE
  else if (c =? BACKSLASH)%char then Some BACKSLASH
  else if (c =? "/")%char then Some "/"%char
  else if (c =? "b")%char then Some BS
  else if (c =? "f")%char then Some FF
  else if (c =? "n")%char then Some LF
  else if (c =? "r")%char then Some CR
  else if (c =? "t")%char then Some TAB
  else None.

Definition is_high_surrogate (u : N) : bool := (55296 <=? u)%N && (u <=? 56319)%N.
Definition is_low_surrogate (u : N) : bool := (56320 <=? u)%N && (u <=? 57343)%N.

(** The low surrogate escape at the head of a text, if there is one. *)
Definition low_surrogate_escape (s : text) : option N :=
  match s with
  | b :: u :: h1 :: h2 :: h3 :: h4 :: _ =>
      if (b =? BACKSLASH)%char && (u =? "u")%char then
        match hex4 h1 h2 h3 h4 with
        | Some lo => if is_low_surrogate lo then Some lo else None
        | None => None
        end
      else None
  | _ => None
  end.

Definition prepend (t : text) (r : option (text * text)) : option (text * text) :=
  match r with
  | Some (t', rest) => Some (t ++ t', rest)
  | None => None
  end.

(** The characters of a string up to its closing quote (the opening quote
    already consumed), and the text after it. *)
Fixpoint parse_string_body (s : text) : option (text * text) :=
  match s with
  | [] => None
  | c :: r =>
      if (c =? DQUOTE)%char then Some ([], r)
      else if (c =? BACKSLASH)%char then
        match r with
        | [] => None
        | e :: r1 =>
            if (e =? "u")%char then
              match r1 with
              | h1 :: h2 :: h3 :: h4 :: r2 =>
                  match hex4 h1 h2 h3 h4 with
                  | Some hi =>
                      match (if is_high_surrogate hi then low_surrogate_escape r2
                             else None), r2 with
                      | Some lo, _ :: _ :: _ :: _ :: _ :: _ :: r3 =>
                          prepend (utf8 (65536 + (hi - 55296) * 1024 + (lo - 56320))%N)
                                  (parse_string_body r3)
                      | _, _ => prepend (utf8 hi) (parse_string_body r2)
                      end
                  | None => None
                  end
              | _ => None
              end
            else
              match unescape e with
              | Some c' => prepend [c'] (parse_string_body r1)
              | None => None
              end
        end
      else if (nat_of_ascii c <? 32)%nat then None
      else prepend [c] (parse_string_body r)
  end.

(* ------------------------------------------------------------------ *)
(** ** Objects: property order *)

(** An array index: the canonical decimal text of an integer below 2^32 - 1. *)
Definition array_index (k : string) : option Z :=
  let t := chars k in
  match t with
  | [] => None
  | c :: r =>
      if forallb is_digit t
         && (negb (c =? "0")%char || match r with [] => true | _ => false end)
         && (List.length t <=? 10)%nat
         && (Z_of_digits t <? 4294967295)%Z
      then Some (Z_of_digits t) else None
  end.

(** A new property goes after the existing ones, except that array indices
    come first, in ascending order. *)
Fixpoint obj_insert (k : string) (v : value) (members : list (string * value))
  : list (string * value) :=
  match members with
  | [] => [(k, v)]
  | (k', v') :: rest =>
      match array_index k, array_index k' with
      | Some i, Some j =>
          if (i <? j)%Z then (k, v) :: members else (k', v') :: obj_insert k v rest
      | Some _, None => (k, v) :: members
      | None, _ => (k', v') :: obj_insert k v rest
      end
  end.

Definition has_key (k : string) (members : list (string * value)) : bool :=
  existsb (fun kv => fst kv =? k) members.

(** CreateDataProperty: an existing property keeps its place and takes the
    new value. *)
Definition obj_set (k : string) (v : value) (members : list (string * value))
  : list (string * value) :=
  if has_key k members
  then map (fun kv => if fst kv =? k then (k, v) else kv) members
  else obj_insert k v members.

(* ------------------------------------------------------------------ *)
(** ** JSON.stringify(value, null, space) *)

Section Stringify.

(** The indentation unit: [space] blanks, at most 10; empty for the compact
    form. *)
Variable gap : text.

Definition newline (indent : text) : text :=
  match gap with
  | [] => []
  | _ :: _ => LF :: indent
  end.

Definition colon : text :=
  match gap with
  | [] => [":"%char]
  | _ :: _ => [":"%char; " "%char]
  end.

Fixpoint serialize (indent : text) (v : value) : text :=
  match v with
  | JNull => chars "null"
  | JBool true => chars "true"
  | JBool false => chars "false"
  | JNumber x => if is_finite x then Number_toString x else chars "null"
  | JString s => quote s
  | JArray [] => chars "[]"
  | JArray (x :: xs) =>
      let stepback := indent in
      let indent := indent ++ gap in
      "["%char :: newline indent ++ serialize indent x
        ++ flat_map (fun y => ","%char :: newline indent ++ serialize indent y) xs
        ++ newline stepback ++ ["]"%char]
  | JObject [] => chars "{}"
  | JObject ((k, x) :: members) =>
      let stepback := indent in
      let indent := indent ++ gap in
      "{"%char :: newline indent ++ quote k ++ colon ++ serialize indent x
        ++ flat_map (fun kv => let '(k', y) := kv in
                               ","%char :: newline indent ++ quote k' ++ colon
                                 ++ serialize indent y) members
        ++ newline stepback ++ ["}"%char]
  end.

End Stringify.

Definition JSON_stringify (v : value) (space : nat) : string :=
  string_of_list_ascii (serialize (repeat " "%char (Nat.min space 10)) [] v).

(* ------------------------------------------------------------------ *)
(** ** JSON.parse *)

Fixpoint parse_value (fuel : nat) (s : text) : option (value * text) :=
  match fuel with
  | O => None
  | S fuel' =>
      match skip_ws s with
      | [] => None
      | c :: r =>
          if (c =? "[")%char then
            match skip_ws r with
            | [] => None
            | c' :: r' =>
                if (c' =? "]")%char then Some (JArray [], r')
                else match parse_elements fuel' (c' :: r') with
                     | Some (vs, rest) => Some (JArray vs, rest)
                     | None => None
                     end
            end
          else if (c =? "{")%char then
            match skip_ws r with
            | [] => None
            | c' :: r' =>
                if (c' =? "}")%char then Some (JObject [], r')
                else match parse_members fuel' (c' :: r') [] with
                     | Some (ms, rest) => Some (JObject ms, rest)
                     | None => None
                     end
            end
          else if (c =? DQUOTE)%char then
            match parse_string_body r with
            | Some (t, rest) => Some (JString (string_of_list_ascii t), rest)
            | None => None
            end
          else if (c =? "n")%char then
            option_map (pair JNull) (strip_prefix (chars "ull") r)
          else if (c =? "t")%char then
            option_map (pair (JBool true)) (strip_prefix (chars "rue") r)
          else if (c =? "f")%char then
            option_map (pair (JBool false)) (strip_prefix (chars "alse") r)
          else if is_digit c || (c =? "-")%char then
            let (tok, rest) := span is_number_char (c :: r) in
            match parse_number_token tok with
            | Some x => Some (JNumber x, rest)
            | None => None
            end
          else None
      end
  end

with parse_elements (fuel : nat) (s : text) : option (list value * text) :=
  match fuel with
  | O => None
  | S fuel' =>
      match parse_value fuel' s with
      | Some (v, r) =>
          match skip_ws r with
          | [] => None
          | c :: r' =>
              if (c =? ",")%char then
                match parse_elements fuel' r' with
                | Some (vs, rest) => Some (v :: vs, rest)
                | None => None
                end
              else if (c =? "]")%char then Some ([v], r')
              else None
          end
      | None => None
      end
  end

with parse_members (fuel : nat) (s : text) (acc : list (string * value))
  : option (list (string * value) * text) :=
  match fuel with
  | O => None
  | S fuel' =>
      match skip_ws s with
      | [] => None
      | q :: r =>
          if (q =? DQUOTE)%char then
            match parse_string_body r with
            | Some (k, r1) =>
                match skip_ws r1 with
                | [] => None
                | c1 :: r2 =>
                    if (c1 =? ":")%char then
                      match parse_value fuel' r2 with
                      | Some (v, r3) =>
                          let acc' := obj_set (string_of_list_ascii k) v acc in
                          match skip_ws r3 with
                          | [] => None
                          | c3 :: r4 =>
                              if (c3 =? ",")%char then parse_members fuel' r4 acc'
                              else if (c3 =? "}")%char then Some (acc', r4)
                              else None
                          end
                      | None => None
                      end
                    else None
                end
            | None => None
            end
          else None
      end
  end.

(** [JSON.parse(text)]; [None] stands for the SyntaxError it throws.  The
    fuel bounds the number of nested calls: of two consecutive calls one
    consumes a character, so twice the length is never exhausted. *)
Definition JSON_parse (s : string) : option value :=
  match parse_value (2 * String.length s + 2) (chars s) with
  | Some (v, rest) => match skip_ws rest with [] => Some v | _ :: _ => None end
  | None => None
  end.

Definition Array_isArray (v : value) : bool :=
  match v with JArray _ => true | _ => false end.

(* ------------------------------------------------------------------ *)
(** ** Values that serialization preserves *)

(** A number token: a digit or a minus sign, then number characters. *)
Definition number_text (t : text) : bool :=
  match t with
  | c :: r => (is_digit c || (c =? "-")%char) && forallb is_number_char r
  | [] => false
  end.

(** A number that [JSON.stringify] writes as a number token which
    [JSON.parse] reads back as the same number.  NaN and the infinities are
    not finite (they are written as [null]); -0 is written as [0]. *)
Definition JSON_number (x : number) : Prop :=
  is_finite x = true /\
  number_text (Number_toString x) = true /\
  parse_number_token (Number_toString x) = Some x.

(** Members in the order in which an object lists its own properties. *)
Definition canonical (members : list (string * value)) : Prop :=
  fold_left (fun acc kv => obj_set (fst kv) (snd kv) acc) members [] = members.

Fixpoint JSON_safe (v : value) : Prop :=
  match v with
  | JNumber x => JSON_number x
  | JArray l => fold_right (fun y P => JSON_safe y /\ P) True l
  | JObject ms =>
      canonical ms /\
      fold_right (fun kv P => (let '(_, y) := kv in JSON_safe y) /\ P) True ms
  | _ => True
  end.

(** The number of values in a value, counting every element and member
    once more. *)
Fixpoint size (v : value) : nat :=
  match v with
  | JArray l => S (fold_right (fun y n => S (size y + n)) 0%nat l)
  | JObject ms =>
      S (fold_right (fun kv n => S ((let '(_, y) := kv in size y) + n)) 0%nat ms)
  | _ => 1%nat
  end.

(** What may follow a number token. *)
Definition delimited (rest : text) : Prop :=
  match rest with
  | [] => True
  | c :: _ => is_number_char c = false
  end.

Definition esize (xs : list value) : nat :=
  fold_right (fun y n => S (size y + n)) 0%nat xs.

Definition msize (ms : list (string * value)) : nat :=
  fold_right (fun kv n => S ((let '(_, y) := kv in size y) + n)) 0%nat ms.

Definition all_safe (xs : list value) : Prop :=
  fold_right (fun y P => JSON_safe y /\ P) True xs.

Definition members_safe (ms : list (string * value)) : Prop :=
  fold_right (fun kv P => (let '(_, y) := kv in JSON_safe y) /\ P) True ms.

(** With fuel [m], the parser reads back every safe value smaller than [m],
    serialized with indentation unit [gap] at any indentation, after any
    blanks, and stops in front of the text that follows. *)
Definition reads_value (gap : text) (m : nat) : Prop :=
  forall (v : value) (indent w rest : text),
    size v < m -> JSON_safe v ->
    forallb is_ws indent = true -> forallb is_ws w = true -> delimited rest ->
    parse_value m (w ++ serialize gap indent v ++ rest) = Some (v, rest).

(** The characters a serialized value can start with. *)
Definition value_start (c : ascii) : bool :=
  is_digit c || (c =? "-")%char || (c =? "[")%char || (c =? "{")%char
  || (c =? DQUOTE)%char || (c =? "n")%char || (c =? "t")%char || (c =? "f")%char.

Definition JSON_product (p : Product) : Prop :=
  JSON_number (Product.price p) /\ JSON_number (Product.stock p).

(* ------------------------------------------------------------------ *)
(** * Persistence and the import/export gateway (useInventory.ts)

    TypeScript types are erased at run time: [JSON.parse] returns [any] and
    [setProducts(data)] stores it unchecked.  The operations that read or
    write serialized data are therefore modelled on the run-time content of
    the [products] cell, a JS value; [catalog] gives the value that a well
    typed catalog is. *)

(** The object of a product.  Own properties in the order of the interface;
    an absent [category] is an absent property. *)
Definition Product_toJS (p : Product) : value :=
  JObject
    ([("id", JString (Product.id p));
      ("barcode", JString (Product.barcode p));
      ("name", JString (Product.name p));
      ("price", JNumber (Product.price p));
      ("stock", JNumber (Product.stock p))]
     ++ match Product.category p with
        | Some c => [("category", JString c)]
        | None => []
        end).

Definition catalog (l : list Product) : value := JArray (map Product_toJS l).

Definition get (k : string) (members : list (string * value)) : option value :=
  option_map snd (find (fun kv => fst kv =? k) members).

(** Reading a value as a [Product]: the fields of the interface with their
    types, [category] optional. *)
Definition Product_ofJS (v : value) : option Product :=
  match v with
  | JObject ms =>
      match get "id" ms, get "barcode" ms, get "name" ms,
            get "price" ms, get "stock" ms with
      | Some (JString i), Some (JString b), Some (JString n),
        Some (JNumber p), Some (JNumber s) =>
          match get "category" ms with
          | None => Some (Product.mk i b n p s None)
          | Some (JString c) => Some (Product.mk i b n p s (Some c))
          | Some _ => None
          end
      | _, _, _, _, _ => None
      end
  | _ => None
  end.

Definition product_shaped (v : value) : bool :=
  match Product_ofJS v with Some _ => true | None => false end.

(** "A sequence of product-shaped records". *)
Definition product_sequence (v : value) : bool :=
  match v with
  | JArray l => forallb product_shaped l
  | _ => false
  end.

(** What the hook reads and writes at run time: the [products] cell, the
    [inventory_data] entry of [localStorage] and the console. *)
Module Runtime.
Record t : Set := mk {
  products : value;
  inventory_data : option string;
  console : list string
}.
End Runtime.

Definition setProductsRaw (data : value) (st : Runtime.t) : Runtime.t :=
  Runtime.mk data (Runtime.inventory_data st) (Runtime.console st).

Definition console_error (msg : string) (st : Runtime.t) : Runtime.t :=
  Runtime.mk (Runtime.products st) (Runtime.inventory_data st)
             (msg :: Runtime.console st).

(** The hook at mount: [useState<Product[]>([])], over a given storage. *)
Definition mount (saved : option string) : Runtime.t :=
  Runtime.mk (JArray []) saved [].

(** The load effect.  [if (saved)] skips [null] and the empty string. *)
Definition load (st : Runtime.t) : Runtime.t :=
  match Runtime.inventory_data st with
  | Some saved =>
      if saved =? "" then st
      else match JSON_parse saved with
           | Some data => setProductsRaw data st
           | None => console_error "Failed to parse inventory data" st
           end
  | None => st
  end.

(** The save effect: [localStorage.setItem('inventory_data', JSON.stringify(products))]. *)
Definition save (st : Runtime.t) : Runtime.t :=
  Runtime.mk (Runtime.products st)
             (Some (JSON_stringify (Runtime.products st) 0))
             (Runtime.console st).

Definition importData (jsonString : string) (st : Runtime.t) : bool * Runtime.t :=
  match JSON_parse jsonString with
  | Some data =>
      if Array_isArray data then (true, setProductsRaw data st)
      else (false, st)
  | None => (false, console_error "Import failed" st)
  end.

Definition exportData (st : Runtime.t) : string :=
  JSON_stringify (Runtime.products st) 2.

(** "Import fails, and leaves the catalog as it was, on every payload that
    does not parse to a sequence of product-shaped records." *)
Definition import_checks_product_shape : Prop :=
  forall (payload : string) (st : Runtime.t),
    match JSON_parse payload with
    | Some data => product_sequence data = false
    | None => True
    end ->
    fst (importData payload st) = false /\
    Runtime.products (snd (importData payload st)) = Runtime.products st.

(** The run-time value [v] holds the products of [l], in some order. *)
Definition same_products (v : value) (l : list Product) : Prop :=
  exists l', v = catalog l' /\ forall p, In p l <-> In p l'.

(** "Export followed immediately by import succeeds and yields a catalog
    equal, as a set of products, to the original, for every catalog." *)
Definition export_import_always_safe : Prop :=
  forall (l : list Product) (st : Runtime.t),
    Runtime.products st = catalog l ->
    fst (importData (exportData st) st) = true /\
    same_products (Runtime.products (snd (importData (exportData st) st))) l.

Definition priceless : Product :=
  Product.mk "p9" "690009" "truffle" infinity 1%float None.

(** A JSON string literal without escapes. *)
Definition quoted (s : string) : string := String DQUOTE (s ++ String DQUOTE "").

(** A backup file in which a price overflows binary64. *)
Definition priceless_payload : string :=
  "[{" ++ quoted "id" ++ ":" ++ quoted "p9" ++ ","
       ++ quoted "barcode" ++ ":" ++ quoted "690009" ++ ","
       ++ quoted "name" ++ ":" ++ quoted "truffle" ++ ","
       ++ quoted "price" ++ ":1e999,"
       ++ quoted "stock" ++ ":1}]".

(* ------------------------------------------------------------------ *)
(** * Exact decimal amounts, for comparison with [totalAmount] *)

(** The binary64 value of an integer (exact below 2^53). *)
Definition Z2number (z : Z) : number :=
  match z with
  | Z0 => 0%float
  | Zpos _ => PrimFloat.of_uint63 (Uint63.of_Z z)
  | Zneg p => (- PrimFloat.of_uint63 (Uint63.of_Z (Zpos p)))%float
  end.

(** The binary64 value nearest to a decimal amount [n/d]: one correctly
    rounded division of two exactly represented integers, which is what a
    decimal literal such as [20.3] denotes in the source. *)
Definition to_number (q : Q) : number :=
  (Z2number (Qnum q) / Z2number (Zpos (Qden q)))%float.

(** The sum over all lines of price * quantity, computed without rounding. *)
Definition exact_total (lines : list (Q * Z)) : Q :=
  fold_left (fun sum l => Qplus sum (Qmult (fst l) (inject_Z (snd l)))) lines (0#1)%Q.

(** A cart line with the given decimal price and integer quantity. *)
Definition priced (price : number) : Product :=
  Product.mk "" "" "" price 0%float None.

Definition line_of (l : Q * Z) : Item :=
  Item.mk (priced (to_number (fst l))) (Z2number (snd l)).

(** "total() is computed in exact decimal arithmetic": on every cart of
    decimal prices and integer quantities the result is the binary64 value
    of the exact sum. *)
Definition total_is_decimal_exact : Prop :=
  forall lines : list (Q * Z),
    totalAmount (map line_of lines) = to_number (exact_total lines).

(** Sample data for the worked examples. *)
Definition cola : Product :=
  Product.mk "p1" "690001" "cola" 3.5%float 10%float None.
Definition chips : Product :=
  Product.mk "p2" "690002" "chips" 9.9%float 4%float (Some "snacks").
Definition gum : Product :=
  Product.mk "p3" "690001" "gum" 0.5%float 7%float None.

Definition sample_ops : list Op :=
  [Add cola; Add chips; Add gum;
   Update (Product.mk "p1" "690001" "cola zero" 4%float 10%float None);
   Delete "p2"].

(* ------------------------------------------------------------------ *)
(** * The product form and the inventory buttons (App.tsx) *)

(** [!s] for a string that may be undefined. *)
Definition falsy (s : option string) : bool :=
  match s with
  | None => true
  | Some s => s =? ""
  end.

(** [setEditingProduct(product)]: a product seen as a partial one. *)
Definition Partial_of (p : Product) : Partial.t :=
  Partial.mk (Some (Product.id p)) (Some (Product.barcode p))
             (Some (Product.name p)) (Some (Product.price p))
             (Some (Product.stock p)) (Product.category p).

(** [{ barcode, name: '', price: 0, stock: 0 }] *)
Definition fresh_form (barcode : string) : Partial.t :=
  Partial.mk None (Some barcode) (Some "") (Some 0%float) (Some 0%float) None.

(** [{...prev}] for [prev] that may be [null]. *)
Definition spread (prev : option Partial.t) : Partial.t :=
  match prev with
  | Some e => e
  | None => Partial.mk None None None None None None
  end.

(** The four [onChange] handlers.  The price and the stock arrive as the
    numbers that [parseFloat] and [parseInt] made of the input. *)
Definition changeBarcode (v : string) (st : App) : App :=
  let e := spread (editingProduct st) in
  setEditingProduct
    (Some (Partial.mk (Partial.id e) (Some v) (Partial.name e) (Partial.price e)
                      (Partial.stock e) (Partial.category e))) st.

Definition changeName (v : string) (st : App) : App :=
  let e := spread (editingProduct st) in
  setEditingProduct
    (Some (Partial.mk (Partial.id e) (Partial.barcode e) (Some v) (Partial.price e)
                      (Partial.stock e) (Partial.category e))) st.

Definition changePrice (x : number) (st : App) : App :=
  let e := spread (editingProduct st) in
  setEditingProduct
    (Some (Partial.mk (Partial.id e) (Partial.barcode e) (Partial.name e) (Some x)
                      (Partial.stock e) (Partial.category e))) st.

Definition changeStock (x : number) (st : App) : App :=
  let e := spread (editingProduct st) in
  setEditingProduct
    (Some (Partial.mk (Partial.id e) (Partial.barcode e) (Partial.name e)
                      (Partial.price e) (Some x) (Partial.category e))) st.

(** The plus button, the "add now" button of the empty inventory, the edit
    button of a product and the close button of the form. *)
Definition openAddForm (st : App) : App :=
  setIsModalOpen true (setEditingProduct (Some (fresh_form "")) st).

Definition openForm (st : App) : App := setIsModalOpen true st.

Definition openEditForm (product : Product) (st : App) : App :=
  setIsModalOpen true (setEditingProduct (Some (Partial_of product)) st).

Definition closeForm (st : App) : App := setIsModalOpen false st.

(** [if (confirm(...)) deleteProduct(product.id)] *)
Definition deleteClicked (confirmed : bool) (product : Product) (st : App) : App :=
  if confirmed then setProducts (deleteProduct (Product.id product)) st else st.

(** [editingProduct as Product], with the given id.  The cast is unchecked in
    the source; it yields a [Product] when the four required fields are
    there, and a value that is none ([None]) otherwise. *)
Definition as_Product (id : string) (e : Partial.t) : option Product :=
  match Partial.barcode e, Partial.name e, Partial.price e, Partial.stock e with
  | Some b, Some n, Some p, Some s => Some (Product.mk id b n p s (Partial.category e))
  | _, _, _, _ => None
  end.

(** The form's submit handler; [uuid] is what [crypto.randomUUID()] returns
    when it is called.  [None]: the product saved would lack a price or a
    stock, which [Product] cannot express. *)
Definition handleAddOrUpdateProduct (uuid : string) (st : App) : option App :=
  match editingProduct st with
  | None => Some st
  | Some e =>
      if falsy (Partial.barcode e) || falsy (Partial.name e) then Some st
      else
        let done (st' : App) := setEditingProduct None (setIsModalOpen false st') in
        let add :=
          option_map
            (fun p => done (toast (toast_success "商品已添加")
                                  (setProducts (addProduct p) st)))
            (as_Product uuid e) in
        match Partial.id e with
        | Some i =>
            if i =? "" then add
            else option_map
                   (fun p => done (toast (toast_success "商品已更新")
                                         (setProducts (updateProduct p) st)))
                   (as_Product i e)
        | None => add
        end
  end.

(** What the operator can do in the three tabs. *)
Inductive Action : Set :=
| DoScan (barcode : string)
| PressScanButton
| PressRemove (idx : nat)
| PressClear
| PressPlus
| PressAddNow
| PressEdit (k : nat)
| PressDelete (k : nat) (confirmed : bool)
| PressClose
| TypeBarcode (v : string)
| TypeName (v : string)
| TypePrice (x : number)
| TypeStock (x : number)
| Submit (uuid : string).

(** The edit and delete buttons belong to the [k]-th product listed. *)
Definition act (a : Action) (st : App) : option App :=
  match a with
  | DoScan barcode => Some (handleScan barcode st)
  | PressScanButton => Some (toggleScanning st)
  | PressRemove idx => Some (removeLine idx st)
  | PressClear => Some (clearCart st)
  | PressPlus => Some (openAddForm st)
  | PressAddNow => Some (openForm st)
  | PressEdit k =>
      match nth_error (products st) k with
      | Some product => Some (openEditForm product st)
      | None => Some st
      end
  | PressDelete k confirmed =>
      match nth_error (products st) k with
      | Some product => Some (deleteClicked confirmed product st)
      | None => Some st
      end
  | PressClose => Some (closeForm st)
  | TypeBarcode v => Some (changeBarcode v st)
  | TypeName v => Some (changeName v st)
  | TypePrice x => Some (changePrice x st)
  | TypeStock x => Some (changeStock x st)
  | Submit uuid => handleAddOrUpdateProduct uuid st
  end.

Fixpoint acts (l : list Action) (st : App) : option App :=
  match l with
  | [] => Some st
  | a :: l' =>
      match act a st with
      | Some st' => acts l' st'
      | None => None
      end
  end.

(** The identifiers [crypto.randomUUID()] is asked for, in order. *)
Fixpoint submitted (l : list Action) : list string :=
  match l with
  | [] => []
  | Submit uuid :: l' => uuid :: submitted l'
  | _ :: l' => submitted l'
  end.

(** [prev.filter((x, i) => f(x, i))] *)
Definition filter_index {A : Type} (f : A -> nat -> bool) (l : list A) : list A :=
  map fst (filter (fun xi => f (fst xi) (snd xi))
                  (combine l (seq 0 (List.length l)))).

(* ------------------------------------------------------------------ *)
(** * The scanner component (components/Scanner.tsx)

    [scannerRef.current] holds the scanner instance, if any.  The effect
    depends on [active] and [onScan]: React runs it after mount, runs its
    cleanup and then the effect again whenever one of them changes, and runs
    the cleanup at unmount. *)
Record Camera : Set := mkCamera {
  current : option nat;   (* scannerRef.current, instances numbered as made *)
  made : nat;             (* instances constructed so far *)
  rendering : list nat    (* instances rendered and not cleared *)
}.

Definition no_camera : Camera := mkCamera None 0 [].

(** [if (active && !scannerRef.current) { ... new ...; ... render(...) }] *)
Definition scanner_effect (active : bool) (c : Camera) : Camera :=
  match current c with
  | None =>
      if active
      then mkCamera (Some (made c)) (S (made c)) (made c :: rendering c)
      else c
  | Some _ => c
  end.

(** [if (scannerRef.current) { ....clear(); scannerRef.current = null }] *)
Definition scanner_cleanup (c : Camera) : Camera :=
  match current c with
  | Some h =>
      mkCamera None (made c) (filter (fun x => negb (x =? h)%nat) (rendering c))
  | None => c
  end.

(** The component from mount, through the successive values of [active] at
    each re-run of the effect, and at unmount. *)
Definition scanner_mounted (active : bool) (changes : list bool) : Camera :=
  fold_left (fun c a => scanner_effect a (scanner_cleanup c)) changes
            (scanner_effect active no_camera).

Definition scanner_unmounted (active : bool) (changes : list bool) : Camera :=
  scanner_cleanup (scanner_mounted active changes).

(** Case analysis on the eight bits of a character. *)
Ltac each_char c :=
  destruct c as [[] [] [] [] [] [] [] []].

(* ================================================================== *)
(** * Properties *)

Section CatalogMisses.

Variable prev : list Product.

Lemma updateProduct_miss (u : Product) :
  (forall p, In p prev -> Product.id p <> Product.id u) ->
  updateProduct u prev = prev.
Proof.
  unfold updateProduct. induction prev as [|p l IH]; intros H; simpl.
  - reflexivity.
  - destruct (String.eqb_spec (Product.id p) (Product.id u)) as [E|_].
    + exfalso. apply (H p); [now left | exact E].
    + f_equal. apply IH. intros q Hq. apply H. now right.
Qed.

Lemma deleteProduct_miss (i : string) :
  (forall p, In p prev -> Product.id p <> i) ->
  deleteProduct i prev = prev.
Proof.
  unfold deleteProduct. induction prev as [|p l IH]; intros H; simpl.
  - reflexivity.
  - destruct (String.eqb_spec (Product.id p) i) as [E|_]; simpl.
    + exfalso. apply (H p); [now left | exact E].
    + f_equal. apply IH. intros q Hq. apply H. now right.
Qed.

End CatalogMisses.

Lemma setProducts_same (f : list Product -> list Product) (st : App) :
  f (products st) = products st -> setProducts f st = st.
Proof. destruct st; unfold setProducts; simpl; intros ->; reflexivity. Qed.

(** C7. Updating with a product whose id matches no entry, or deleting an id
    that is not in the catalog, leaves the catalog (and every other state
    cell, notifications included) exactly as it was: nothing is added,
    removed or modified and nothing is reported. *)
Theorem update_delete_unknown_id_noop (st : App) :
  (forall u : Product,
      (forall p, In p (products st) -> Product.id p <> Product.id u) ->
      updateProduct u (products st) = products st /\
      setProducts (updateProduct u) st = st) /\
  (forall i : string,
      (forall p, In p (products st) -> Product.id p <> i) ->
      deleteProduct i (products st) = products st /\
      setProducts (deleteProduct i) st = st).
Proof.
  split.
  - intros u H. pose proof (updateProduct_miss (products st) u H) as E.
    split; [exact E | now apply setProducts_same].
  - intros i H. pose proof (deleteProduct_miss (products st) i H) as E.
    split; [exact E | now apply setProducts_same].
Qed.

Lemma update_delete_unknown_id_noop_witness :
  let st := mkApp [cola; chips] [] false false None [] in
  (updateProduct gum (products st) = products st /\
   setProducts (updateProduct gum) st = st) /\
  (deleteProduct "p3" (products st) = products st /\
   setProducts (deleteProduct "p3") st = st).
Proof.
  intro st.
  destruct (update_delete_unknown_id_noop st) as [HU HD].
  split.
  - apply HU. simpl. intros p [<-|[<-|[]]]; simpl; discriminate.
  - apply HD. simpl. intros p [<-|[<-|[]]]; simpl; discriminate.
Defined.

Lemma step_keeps_disarmed (ev : Event) (st : App) :
  ev <> ScanButton -> isScanning st = false -> isScanning (step ev st) = false.
Proof.
  destruct ev; simpl; intros Hev H; try exact H; try reflexivity.
  now destruct Hev.
Qed.

(** C10. Every processed scan, whether the barcode resolves to a product or
    not, leaves the scanning flag false; the flag then stays false through
    every further event except the scan button, which sets it again. *)
Theorem handleScan_disarms (barcode : string) (st : App) :
  isScanning (handleScan barcode st) = false /\
  (forall evs : list Event,
      ~ In ScanButton evs ->
      isScanning (steps evs (handleScan barcode st)) = false) /\
  isScanning (step ScanButton (handleScan barcode st)) = true.
Proof.
  split; [reflexivity | split; [|reflexivity]].
  intros evs. generalize (handleScan barcode st), (eq_refl : isScanning (handleScan barcode st) = false).
  induction evs as [|ev evs IH]; intros st' H Hno; simpl.
  - exact H.
  - apply IH.
    + apply step_keeps_disarmed; [|exact H]. intros ->. apply Hno. now left.
    + intros Hin. apply Hno. now right.
Qed.

Lemma handleScan_disarms_witness :
  let st := mkApp [cola; chips] [] true false None [] in
  isScanning (steps [Scanned "690002"; ProductDeleted "p1"; ClearCart]
                    (handleScan "000000" st)) = false.
Proof.
  intro st.
  apply (proj1 (proj2 (handleScan_disarms "000000" st))).
  simpl. intuition discriminate.
Defined.

Lemma handleScan_products (barcode : string) (st : App) :
  products (handleScan barcode st) = products st.
Proof.
  unfold handleScan. destruct (findByBarcode (products st) barcode); reflexivity.
Qed.

Lemma handleScan_cart (barcode : string) (st : App) :
  cart (handleScan barcode st) =
  match findByBarcode (products st) barcode with
  | Some product => scanInto product barcode (cart st)
  | None => cart st
  end.
Proof.
  unfold handleScan. destruct (findByBarcode (products st) barcode); reflexivity.
Qed.

(** C9. A cart line keeps the product data it was created with: a catalog
    update or delete, and any sequence of catalog operations, leaves the
    cart untouched, every line with its product data and quantity; and a
    later scan never rewrites the product of a line that is already there. *)
Theorem cart_lines_are_snapshots (st : App) :
  (forall u : Product, cart (setProducts (updateProduct u) st) = cart st) /\
  (forall i : string, cart (setProducts (deleteProduct i) st) = cart st) /\
  (forall evs : list Event,
      forallb catalog_event evs = true -> cart (steps evs st) = cart st) /\
  (forall b : string, exists extra,
      map Item.product (cart (handleScan b st)) =
      map Item.product (cart st) ++ extra).
Proof.
  split; [reflexivity | split; [reflexivity | split]].
  - intros evs. revert st. induction evs as [|ev evs IH]; intros st H; simpl.
    + reflexivity.
    + simpl in H. apply andb_true_iff in H. destruct H as [Hev H].
      rewrite (IH _ H). destruct ev; (discriminate Hev || reflexivity).
  - intros b. rewrite handleScan_cart.
    destruct (findByBarcode (products st) b) as [product|].
    + unfold scanInto.
      destruct (find _ (cart st)).
      * exists []. rewrite app_nil_r, map_map. apply map_ext.
        intros item. destruct (_ =? _); reflexivity.
      * exists [product]. now rewrite map_app.
    + exists []. now rewrite app_nil_r.
Qed.

Lemma cart_lines_are_snapshots_witness :
  let st := handleScan "690001" (mkApp [cola; chips] [] true false None []) in
  cart (steps [ProductUpdated (Product.mk "p1" "690001" "cola zero" 4%float 10%float None);
               ProductDeleted "p1"] st) = [Item.mk cola 1%float].
Proof.
  intro st.
  apply (proj1 (proj2 (proj2 (cart_lines_are_snapshots st)))). reflexivity.
Defined.

(** A line created by a scan still holds the product as it was scanned
    after the catalog entry has been replaced. *)
Lemma scanned_line_survives_update (st : App) (b : string) (p u : Product) :
  findByBarcode (products st) b = Some p ->
  find (hit b) (cart st) = None ->
  In (Item.mk p 1%float) (cart (setProducts (updateProduct u) (handleScan b st))).
Proof.
  intros Hp Hc.
  change (In (Item.mk p 1%float) (cart (handleScan b st))).
  rewrite handleScan_cart, Hp. unfold scanInto.
  unfold hit, line_barcode in Hc. rewrite Hc. apply in_or_app. right. now left.
Qed.

Section Scan.

Variable b : string.

Lemma find_hit_none (prev : list Item) :
  find (hit b) prev = None <-> (forall item, In item prev -> line_barcode item <> b).
Proof.
  split.
  - intros H item Hin E.
    pose proof (find_none _ _ H item Hin) as F. unfold hit in F.
    rewrite E, String.eqb_refl in F. discriminate.
  - intros H. induction prev as [|x l IH]; simpl; [reflexivity|].
    unfold hit at 1. destruct (String.eqb_spec (line_barcode x) b) as [E|_].
    + exfalso. apply (H x); [now left | exact E].
    + apply IH. intros item Hin. apply H. now right.
Qed.

Lemma filter_hit_nil (prev : list Item) :
  (forall item, In item prev -> line_barcode item <> b) ->
  filter (fun item => line_barcode item =? b) prev = [].
Proof.
  induction prev as [|x l IH]; intros H; simpl; [reflexivity|].
  destruct (String.eqb_spec (line_barcode x) b) as [E|_].
  - destruct (H x); [now left | exact E].
  - apply IH. intros item Hin. apply H. now right.
Qed.

Lemma scanInto_miss (product : Product) (prev : list Item) :
  (forall item, In item prev -> line_barcode item <> b) ->
  scanInto product b prev = prev ++ [Item.mk product 1%float].
Proof.
  intros H. unfold scanInto. apply find_hit_none in H.
  unfold hit, line_barcode in H. now rewrite H.
Qed.

Lemma scanInto_hit (product : Product) (prev : list Item) :
  (exists item, In item prev /\ line_barcode item = b) ->
  scanInto product b prev = map (fun item => if hit b item then bump item else item) prev.
Proof.
  intros [item [Hin E]]. unfold scanInto.
  destruct (find _ prev) eqn:F; [reflexivity|].
  exfalso. apply (proj1 (find_hit_none prev) F item Hin E).
Qed.

Lemma scanInto_barcodes (product : Product) (prev : list Item) :
  Product.barcode product = b ->
  map line_barcode (scanInto product b prev) =
  match find (hit b) prev with
  | Some _ => map line_barcode prev
  | None => map line_barcode prev ++ [b]
  end.
Proof.
  intros Hb. unfold scanInto, hit, line_barcode.
  destruct (find _ prev).
  - rewrite map_map. apply map_ext. intros item.
    destruct (_ =? _); reflexivity.
  - rewrite map_app. simpl. now rewrite Hb.
Qed.

End Scan.

Lemma findByBarcode_barcode (l : list Product) (b : string) (p : Product) :
  findByBarcode l b = Some p -> Product.barcode p = b.
Proof.
  unfold findByBarcode. intros H. apply find_some in H.
  now apply String.eqb_eq.
Qed.

(** Counting scans in binary64 is exact: adding 1 to the number [n] gives the
    number [n + 1], here for every quantity up to 5000. *)
Lemma quantities_count_exactly :
  forallb (fun n => PrimFloat.eqb (Z2number (Z.of_nat n) + 1)
                                  (Z2number (Z.of_nat (S n))))
          (seq 0 5000) = true.
Proof. vm_compute. reflexivity. Qed.

(** C5. When the scanned barcode resolves to a product: if some cart line
    carries that barcode, the cart keeps its length, each such line gets its
    quantity incremented by 1 (the addition of JS numbers) and every other
    line is unchanged; otherwise one line with quantity 1 is appended.
    Scanning the same barcode twice, starting without a line for it, yields
    exactly one line for it, with quantity 2; and a cart with at most one
    line per barcode stays so. *)
Theorem handleScan_merges_lines (st : App) (b : string) (product : Product) :
  findByBarcode (products st) b = Some product ->
  ((exists item, In item (cart st) /\ line_barcode item = b) ->
     List.length (cart (handleScan b st)) = List.length (cart st) /\
     forall k item, nth_error (cart st) k = Some item ->
       nth_error (cart (handleScan b st)) k =
       Some (if line_barcode item =? b then bump item else item)) /\
  ((forall item, In item (cart st) -> line_barcode item <> b) ->
     cart (handleScan b st) = cart st ++ [Item.mk product 1%float] /\
     cart (handleScan b (handleScan b st)) = cart st ++ [Item.mk product 2%float] /\
     filter (fun item => line_barcode item =? b)
            (cart (handleScan b (handleScan b st))) = [Item.mk product 2%float]) /\
  (NoDup (map line_barcode (cart st)) ->
     NoDup (map line_barcode (cart (handleScan b st)))).
Proof.
  intros Hfind.
  pose proof (findByBarcode_barcode _ _ _ Hfind) as Hb.
  split; [|split].
  - intros Hex. rewrite handleScan_cart, Hfind, (scanInto_hit b product _ Hex).
    split; [apply length_map|].
    intros k item Hk. rewrite nth_error_map, Hk. reflexivity.
  - intros Hnone.
    assert (E1 : cart (handleScan b st) = cart st ++ [Item.mk product 1%float]).
    { rewrite handleScan_cart, Hfind. now apply scanInto_miss. }
    assert (E2 : cart (handleScan b (handleScan b st)) =
                 cart st ++ [Item.mk product 2%float]).
    { rewrite handleScan_cart, handleScan_products, Hfind, E1.
      rewrite scanInto_hit.
      - rewrite map_app. unfold hit. simpl. unfold line_barcode at 2. simpl.
        rewrite Hb, String.eqb_refl. f_equal.
        rewrite <- (map_id (cart st)) at 2. apply map_ext_in.
        intros item Hin. destruct (String.eqb_spec (line_barcode item) b) as [E|_].
        + now destruct (Hnone item Hin).
        + reflexivity.
      - exists (Item.mk product 1%float). split.
        + apply in_or_app. right. now left.
        + exact Hb. }
    split; [exact E1 | split; [exact E2|]].
    rewrite E2, filter_app. simpl. unfold line_barcode at 2. simpl.
    rewrite Hb, String.eqb_refl.
    now rewrite (filter_hit_nil b _ Hnone).
  - intros Hnd. rewrite handleScan_cart, Hfind, (scanInto_barcodes b product _ Hb).
    destruct (find _ (cart st)) eqn:F; [exact Hnd|].
    apply NoDup_app; [exact Hnd | repeat constructor; intros [] | ].
    intros x Hx [<-|[]].
    apply in_map_iff in Hx. destruct Hx as [item [E Hin]].
    apply (proj1 (find_hit_none _ (cart st)) F item Hin E).
Qed.

Lemma handleScan_merges_lines_witness :
  let st := mkApp [cola; chips] [Item.mk cola 3%float] true false None [] in
  findByBarcode (products st) "690002" = Some chips /\
  cart (handleScan "690002" (handleScan "690002" st)) =
    [Item.mk cola 3%float; Item.mk chips 2%float].
Proof.
  intro st. split; [reflexivity|].
  refine (proj1 (proj2 (proj1 (proj2
    (handleScan_merges_lines st "690002" chips eq_refl)) _))).
  simpl. intros item [<-|[]]. discriminate.
Defined.

Lemma number_neq (x y : number) :
  PrimFloat.eqb x y = false -> PrimFloat.eqb y y = true -> x <> y.
Proof. intros H R E. rewrite E, R in H. discriminate. Qed.

(** C2, as stated, fails: with prices 0.1 and 0.2 (quantity 1 each) the
    binary64 fold yields 0.30000000000000004, not the binary64 value of the
    exact decimal sum 0.3. *)
Lemma total_not_decimal_exact : ~ total_is_decimal_exact.
Proof.
  intros H. specialize (H [((1#10)%Q, 1%Z); ((2#10)%Q, 1%Z)]). revert H.
  apply number_neq; vm_compute; reflexivity.
Qed.

Lemma totalAmount_snoc (cart : list Item) (item : Item) :
  totalAmount (cart ++ [item]) =
  (totalAmount cart + Product.price (Item.product item) * Item.quantity item)%float.
Proof. unfold totalAmount. now rewrite fold_left_app. Qed.

(** C2 (amended). The total of the empty cart is exactly 0; the total of a
    two-line cart with (price 9.9, quantity 2) and (price 0.5, quantity 1) is
    exactly the binary64 number 20.3, which is also the binary64 value of the
    exact decimal sum; and the total is a left-to-right accumulation in
    binary64 arithmetic, each line adding [price * quantity] with the
    rounding of the two floating-point operations. *)
Theorem totalAmount_values :
  totalAmount [] = 0%float /\
  (forall p1 p2 : Product,
      Product.price p1 = 9.9%float -> Product.price p2 = 0.5%float ->
      totalAmount [Item.mk p1 2%float; Item.mk p2 1%float] = 20.3%float /\
      to_number (exact_total [((99#10)%Q, 2%Z); ((5#10)%Q, 1%Z)]) = 20.3%float) /\
  (forall (cart : list Item) (item : Item),
      totalAmount (cart ++ [item]) =
      (totalAmount cart +
       Product.price (Item.product item) * Item.quantity item)%float).
Proof.
  split; [reflexivity | split; [| exact totalAmount_snoc]].
  intros p1 p2 H1 H2. unfold totalAmount. simpl. rewrite H1, H2.
  split; vm_compute; reflexivity.
Qed.

Lemma totalAmount_values_witness :
  totalAmount [Item.mk chips 2%float; Item.mk gum 1%float] = 20.3%float.
Proof.
  exact (proj1 (proj1 (proj2 totalAmount_values) chips gum eq_refl eq_refl)).
Defined.

(* ------------------------------------------------------------------ *)
(** ** The catalog under sequences of operations *)

Lemma run_snoc (ops : list Op) (op : Op) :
  run (ops ++ [op]) = apply_op op (run ops).
Proof. unfold run. now rewrite fold_left_app. Qed.

Lemma added_ids_app (ops1 ops2 : list Op) :
  added_ids (ops1 ++ ops2) = added_ids ops1 ++ added_ids ops2.
Proof.
  induction ops1 as [|[p|u|d] l IH]; simpl; [reflexivity | now rewrite IH | exact IH | exact IH].
Qed.

Lemma updateProduct_ids (u : Product) (l : list Product) :
  map Product.id (updateProduct u l) = map Product.id l.
Proof.
  unfold updateProduct. rewrite map_map. apply map_ext. intros p.
  destruct (String.eqb_spec (Product.id p) (Product.id u)) as [E|_]; congruence.
Qed.

Lemma deleteProduct_ids (d : string) (l : list Product) :
  map Product.id (deleteProduct d l) =
  filter (fun i => negb (i =? d)) (map Product.id l).
Proof.
  unfold deleteProduct. induction l as [|p l IH]; simpl; [reflexivity|].
  destruct (Product.id p =? d); simpl; now rewrite IH.
Qed.

Lemma present_in (l : list Product) (i : string) :
  present l i = true <-> In i (map Product.id l).
Proof.
  unfold present. rewrite existsb_exists, in_map_iff. split.
  - intros [p [Hin E]]. exists p. split; [now apply String.eqb_eq | exact Hin].
  - intros [p [E Hin]]. exists p. split; [exact Hin | now apply String.eqb_eq].
Qed.

Lemma present_ext (l l' : list Product) (i : string) :
  (In i (map Product.id l) <-> In i (map Product.id l')) ->
  present l i = present l' i.
Proof.
  intros H. destruct (present l i) eqn:A, (present l' i) eqn:B; try reflexivity.
  - apply present_in, H, present_in in A. congruence.
  - apply present_in, H, present_in in B. congruence.
Qed.

Lemma present_delete (d : string) (l : list Product) (i : string) :
  present (deleteProduct d l) i = present l i && negb (i =? d).
Proof.
  unfold present, deleteProduct. induction l as [|p l IH]; simpl; [reflexivity|].
  destruct (String.eqb_spec (Product.id p) d) as [E|N]; simpl.
  - rewrite IH. destruct (String.eqb_spec (Product.id p) i) as [E'|_]; simpl.
    + rewrite <- E', E, String.eqb_refl. simpl. now rewrite andb_false_r.
    + reflexivity.
  - rewrite IH. destruct (String.eqb_spec (Product.id p) i) as [E'|_]; simpl.
    + rewrite <- E'. apply String.eqb_neq in N. now rewrite N.
    + reflexivity.
Qed.

(** Every id in the catalog was supplied by some add. *)
Lemma run_ids_added (ops : list Op) (i : string) :
  In i (map Product.id (run ops)) -> In i (added_ids ops).
Proof.
  induction ops as [|op ops IH] using rev_ind; [intros []|].
  rewrite run_snoc, added_ids_app. destruct op as [p|u|d]; simpl.
  - unfold addProduct. rewrite map_app, !in_app_iff. simpl. tauto.
  - rewrite updateProduct_ids, app_nil_r. exact IH.
  - rewrite deleteProduct_ids, app_nil_r, filter_In. tauto.
Qed.

(** Store order is add order: the ids of the catalog are the added ids that
    are still present, in the order of their adds. *)
Lemma run_ids_order (ops : list Op) :
  NoDup (added_ids ops) ->
  map Product.id (run ops) = filter (present (run ops)) (added_ids ops).
Proof.
  induction ops as [|op ops IH] using rev_ind; [reflexivity|].
  rewrite run_snoc, added_ids_app. destruct op as [p|u|d]; simpl.
  - intros ND. apply NoDup_remove in ND. rewrite app_nil_r in ND.
    destruct ND as [ND Hfresh]. unfold addProduct.
    rewrite map_app, filter_app. simpl.
    replace (present (run ops ++ [p]) (Product.id p)) with true.
    + f_equal. rewrite (IH ND) at 1. apply filter_ext_in. intros i Hi.
      apply present_ext. rewrite map_app, in_app_iff. simpl.
      split; [tauto | intros [H|[<-|[]]]; [exact H | contradiction]].
    + symmetry. apply present_in. rewrite map_app, in_app_iff. simpl. tauto.
  - rewrite app_nil_r. intros ND. rewrite updateProduct_ids, (IH ND) at 1.
    apply filter_ext. intros i. apply present_ext.
    now rewrite updateProduct_ids.
  - rewrite app_nil_r. intros ND. rewrite deleteProduct_ids, (IH ND) at 1.
    clear IH ND. induction (added_ids ops) as [|i l IHl]; simpl; [reflexivity|].
    rewrite present_delete.
    destruct (present (run ops) i); simpl; [|exact IHl].
    destruct (i =? d); simpl; [exact IHl | now rewrite IHl].
Qed.

Lemma run_ids_NoDup (ops : list Op) :
  NoDup (added_ids ops) -> NoDup (map Product.id (run ops)).
Proof.
  intros ND. rewrite (run_ids_order ops ND). now apply NoDup_filter.
Qed.

Lemma latest_snoc (i : string) (post : list Op) (op : Op) (p : Product) :
  latest i (post ++ [op]) p =
  match op with
  | Update u => if Product.id u =? i then u else latest i post p
  | _ => latest i post p
  end.
Proof. unfold latest. rewrite fold_left_app. reflexivity. Qed.

Lemma latest_id (post : list Op) (p : Product) :
  Product.id (latest (Product.id p) post p) = Product.id p.
Proof.
  induction post as [|op post IH] using rev_ind; [reflexivity|].
  rewrite latest_snoc. destruct op as [a|u|d]; try exact IH.
  destruct (String.eqb_spec (Product.id u) (Product.id p)); [assumption | exact IH].
Qed.

Lemma snoc_split {A : Type} (pre post l : list A) (x y : A) :
  pre ++ x :: post = l ++ [y] ->
  (post = [] /\ pre = l /\ x = y) \/
  (exists post0, post = post0 ++ [y] /\ l = pre ++ x :: post0).
Proof.
  induction post as [|z post _] using rev_ind; intros E.
  - left. apply app_inj_tail in E. tauto.
  - right. exists post.
    change (pre ++ x :: post ++ [z]) with (pre ++ (x :: post) ++ [z]) in E.
    rewrite app_assoc in E. apply app_inj_tail in E. destruct E as [E ->].
    split; [reflexivity | now symmetry].
Qed.

(** An entry [e] is in the catalog exactly when it stems from an add that no
    later operation deleted, and it then carries the latest field values. *)
Lemma run_entries (ops : list Op) (e : Product) :
  In e (run ops) <->
  exists pre p post,
    ops = pre ++ Add p :: post /\
    ~ In (Delete (Product.id p)) post /\
    e = latest (Product.id p) post p.
Proof.
  revert e. induction ops as [|op ops IH] using rev_ind; intros e.
  - split; [intros [] | intros [pre [p [post [E _]]]]].
    now destruct pre.
  - rewrite run_snoc. split.
    + (* each entry has an origin *)
      destruct op as [a|u|d]; simpl.
      * unfold addProduct. rewrite in_app_iff. intros [H|[<-|[]]].
        -- apply IH in H. destruct H as [pre [p [post [-> [ND ->]]]]].
           exists pre, p, (post ++ [Add a]). rewrite latest_snoc.
           split; [now rewrite <- app_assoc | split; [|reflexivity]].
           rewrite in_app_iff. intros [H|[H|[]]]; [now apply ND | discriminate].
        -- exists ops, a, []. repeat split. intros [].
      * unfold updateProduct. rewrite in_map_iff. intros [e0 [<- H]].
        apply IH in H. destruct H as [pre [p [post [-> [ND ->]]]]].
        exists pre, p, (post ++ [Update u]). rewrite latest_snoc, latest_id.
        split; [now rewrite <- app_assoc | split].
        -- rewrite in_app_iff. intros [H|[H|[]]]; [now apply ND | discriminate].
        -- now rewrite String.eqb_sym.
      * unfold deleteProduct. rewrite filter_In. intros [H N].
        apply IH in H. destruct H as [pre [p [post [-> [ND ->]]]]].
        exists pre, p, (post ++ [Delete d]). rewrite latest_snoc.
        split; [now rewrite <- app_assoc | split; [|reflexivity]].
        rewrite latest_id in N. apply negb_true_iff, String.eqb_neq in N.
        rewrite in_app_iff. intros [H|[H|[]]]; [now apply ND | congruence].
    + (* each surviving add has its entry *)
      intros [pre [p [post [E [ND ->]]]]].
      symmetry in E. apply snoc_split in E. destruct E as [[-> [-> <-]] | [post0 [-> ->]]].
      * simpl. unfold addProduct. apply in_or_app. right. now left.
      * assert (H0 : In (latest (Product.id p) post0 p) (run (pre ++ Add p :: post0))).
        { apply IH. exists pre, p, post0. repeat split.
          intros H. apply ND, in_or_app. now left. }
        rewrite latest_snoc. destruct op as [a|u|d]; simpl.
        -- unfold addProduct. apply in_or_app. now left.
        -- unfold updateProduct. apply in_map_iff.
           exists (latest (Product.id p) post0 p). split; [|exact H0].
           now rewrite latest_id, String.eqb_sym.
        -- unfold deleteProduct. apply filter_In. split; [exact H0|].
           rewrite latest_id. apply negb_true_iff, String.eqb_neq.
           intros <-. apply ND, in_or_app. right. now left.
Qed.

(** C3. Starting from the empty catalog, when every add supplies an id not
    added before, the catalog holds exactly one entry per id that was added
    and not deleted afterwards (ids are pairwise distinct, every surviving
    add has its entry and every entry stems from one), and the entry carries
    the field values of the most recent update, or of the add itself when it
    was never updated. *)
Theorem catalog_one_entry_per_live_id (ops : list Op) :
  NoDup (added_ids ops) ->
  NoDup (map Product.id (run ops)) /\
  (forall e : Product,
      In e (run ops) <->
      exists pre p post,
        ops = pre ++ Add p :: post /\
        ~ In (Delete (Product.id p)) post /\
        e = latest (Product.id p) post p) /\
  (forall pre p post,
      ops = pre ++ Add p :: post ->
      ~ In (Delete (Product.id p)) post ->
      filter (fun e => Product.id e =? Product.id p) (run ops) =
      [latest (Product.id p) post p]).
Proof.
  intros ND. pose proof (run_ids_NoDup ops ND) as NDr.
  split; [exact NDr | split; [exact (run_entries ops)|]].
  intros pre p post E Hlive.
  assert (Hin : In (latest (Product.id p) post p) (run ops)).
  { apply run_entries. now exists pre, p, post. }
  pose proof (latest_id post p) as Hid. revert NDr Hin Hid.
  generalize (latest (Product.id p) post p) as e, (run ops) as l.
  intros e l. induction l as [|x l IH]; simpl; [intros _ []|].
  intros NDl Hin Hid. inversion NDl as [|? ? Hx NDl']; subst.
  assert (Hnil : forall l', ~ In (Product.id p) (map Product.id l') ->
                 filter (fun e0 => Product.id e0 =? Product.id p) l' = []).
  { induction l' as [|y l' IH']; simpl; [reflexivity|]. intros H.
    destruct (String.eqb_spec (Product.id y) (Product.id p)) as [Ey|_].
    - destruct H. now left.
    - apply IH'. intros H'. apply H. now right. }
  destruct Hin as [->|Hin].
  - rewrite Hid, String.eqb_refl. f_equal. apply Hnil. now rewrite <- Hid.
  - destruct (String.eqb_spec (Product.id x) (Product.id p)) as [Ex|_].
    + exfalso. apply Hx. rewrite Ex, <- Hid. now apply in_map.
    + now apply IH.
Qed.

Lemma sample_ops_unique : NoDup (added_ids sample_ops).
Proof.
  simpl. repeat constructor; simpl; intuition discriminate.
Defined.

Lemma catalog_one_entry_per_live_id_witness :
  NoDup (added_ids sample_ops) /\
  NoDup (map Product.id (run sample_ops)) /\
  filter (fun e => Product.id e =? "p1") (run sample_ops) =
  [Product.mk "p1" "690001" "cola zero" 4%float 10%float None].
Proof.
  split; [exact sample_ops_unique|].
  destruct (catalog_one_entry_per_live_id sample_ops sample_ops_unique)
    as [ND [_ H]].
  split; [exact ND|].
  apply (H [] cola (skipn 1 sample_ops)); [reflexivity|].
  simpl. intuition discriminate.
Defined.

(* ------------------------------------------------------------------ *)
(** ** Lookup *)

Lemma find_first {A : Type} (f : A -> bool) (l : list A) :
  match find f l with
  | Some x => exists l1 l2, l = l1 ++ x :: l2 /\ f x = true /\
                            forall y, In y l1 -> f y = false
  | None => forall y, In y l -> f y = false
  end.
Proof.
  induction l as [|z l IH]; simpl; [intros y []|].
  destruct (f z) eqn:Fz.
  - exists [], l. repeat split; [exact Fz | intros y []].
  - destruct (find f l) as [x|].
    + destruct IH as [l1 [l2 [-> [Fx H]]]]. exists (z :: l1), l2.
      repeat split; [exact Fx|]. intros y [<-|Hy]; [exact Fz | now apply H].
    + intros y [<-|Hy]; [exact Fz | now apply IH].
Qed.

Lemma filter_keeps_order {A : Type} (f : A -> bool) (l a r : list A) (x y : A) :
  filter f l = a ++ x :: r -> In y r ->
  exists l1 l2 l3, l = l1 ++ x :: l2 ++ y :: l3.
Proof.
  revert a. induction l as [|z l IH]; simpl; intros a E Hy.
  - now destruct a.
  - destruct (f z).
    + destruct a as [|a0 a]; simpl in E; injection E as -> E.
      * assert (Hl : In y l) by (rewrite <- E in Hy; now apply filter_In in Hy).
        apply in_split in Hl. destruct Hl as [l2 [l3 ->]]. now exists [], l2, l3.
      * destruct (IH a E Hy) as [l1 [l2 [l3 ->]]]. now exists (a0 :: l1), l2, l3.
    + destruct (IH a E Hy) as [l1 [l2 [l3 ->]]]. now exists (z :: l1), l2, l3.
Qed.

Lemma apply_tagged_erase (t : nat) (op : Op) (prev : list (nat * Product)) :
  map snd (apply_tagged t op prev) = apply_op op (map snd prev).
Proof.
  destruct op as [p|u|d]; simpl.
  - unfold addProduct. now rewrite map_app.
  - unfold updateProduct. rewrite !map_map. reflexivity.
  - unfold deleteProduct. induction prev as [|e l IH]; simpl; [reflexivity|].
    destruct (Product.id (snd e) =? d); simpl; now rewrite IH.
Qed.

(** Erasing the tags gives the run itself. *)
Lemma run_tagged_erase (ops : list Op) : map snd (run_tagged ops) = run ops.
Proof.
  unfold run_tagged, run. change (@nil Product) with (map snd (@nil (nat * Product))).
  generalize (@nil (nat * Product)) as prev, 0 as t.
  induction ops as [|op ops IH]; intros prev t; simpl; [reflexivity|].
  now rewrite IH, apply_tagged_erase.
Qed.

Lemma apply_tagged_tags (t : nat) (op : Op) (prev : list (nat * Product))
      (e : nat * Product) :
  In e (apply_tagged t op prev) ->
  (exists p, In (fst e, p) prev) \/ (exists p, op = Add p /\ e = (t, p)).
Proof.
  destruct op as [p|u|d]; simpl.
  - rewrite in_app_iff. intros [H|[<-|[]]].
    + left. exists (snd e). now destruct e.
    + right. now exists p.
  - rewrite in_map_iff. intros [e0 [<- H]]. left. exists (snd e0). now destruct e0.
  - rewrite filter_In. intros [H _]. left. exists (snd e). now destruct e.
Qed.

(** A tag is the position of an add of the sequence. *)
Lemma run_tagged_origin (ops : list Op) (t : nat) (p : Product) :
  In (t, p) (run_tagged ops) -> exists p0, nth_error ops t = Some (Add p0).
Proof.
  unfold run_tagged.
  assert (G : forall ops t0 prev,
             In (t, p) (run_tagged_from t0 ops prev) ->
             (exists p', In (t, p') prev) \/
             (t0 <= t /\ exists p0, nth_error ops (t - t0) = Some (Add p0))).
  { clear ops. induction ops as [|op ops IH]; intros t0 prev H; simpl in H.
    - left. now exists p.
    - destruct (IH _ _ H) as [[p' H']|[Hle [p0 Hn]]].
      + apply apply_tagged_tags in H'. simpl in H'.
        destruct H' as [H'|[q [-> E]]]; [now left|].
        injection E as -> _. right. split; [lia|]. exists q.
        now rewrite Nat.sub_diag.
      + right. split; [lia|]. exists p0.
        replace (t - t0) with (S (t - S t0)) by lia. exact Hn. }
  intros H. destruct (G ops 0 [] H) as [[p' []]|[_ [p0 Hn]]].
  exists p0. now rewrite Nat.sub_0_r in Hn.
Qed.

Lemma by_age_snoc (l : list (nat * Product)) (e : nat * Product) :
  by_age l -> Forall (fun e' => fst e' < fst e) l -> by_age (l ++ [e]).
Proof.
  unfold by_age. induction 1 as [|x l Hl IH Hx]; intros H; simpl.
  - repeat constructor.
  - inversion H as [|? ? Hxe Hle]; subst. constructor; [now apply IH|].
    apply Forall_app. split; [exact Hx | now repeat constructor].
Qed.

Lemma apply_tagged_by_age (t : nat) (op : Op) (prev : list (nat * Product)) :
  by_age prev -> Forall (fun e => fst e < t) prev ->
  by_age (apply_tagged t op prev) /\
  Forall (fun e => fst e < S t) (apply_tagged t op prev).
Proof.
  intros Hs Hb. destruct op as [p|u|d]; simpl.
  - split; [now apply by_age_snoc|].
    apply Forall_app. split; [|repeat constructor; simpl; lia].
    eapply Forall_impl; [|exact Hb]. simpl. intros; lia.
  - split.
    + unfold by_age in *. induction Hs as [|x l Hl IH Hx]; simpl; constructor.
      * apply IH. now inversion Hb.
      * apply Forall_map. exact Hx.
    + apply Forall_map. eapply Forall_impl; [|exact Hb]. simpl. intros; lia.
  - split.
    + unfold by_age in *. induction Hs as [|x l Hl IH Hx]; simpl; [constructor|].
      assert (IH' := IH ltac:(now inversion Hb)).
      destruct (negb _); [|exact IH']. constructor; [exact IH'|].
      apply Forall_forall. intros e He. apply filter_In in He.
      rewrite Forall_forall in Hx. now apply Hx.
    + apply Forall_forall. intros e He. apply filter_In in He.
      rewrite Forall_forall in Hb. specialize (Hb e (proj1 He)). lia.
Qed.

(** Store order is age order. *)
Lemma run_tagged_by_age (ops : list Op) : by_age (run_tagged ops).
Proof.
  unfold run_tagged.
  assert (G : forall ops t prev,
             by_age prev -> Forall (fun e => fst e < t) prev ->
             by_age (run_tagged_from t ops prev)).
  { clear ops. induction ops as [|op ops IH]; intros t prev Hs Hb; simpl.
    - exact Hs.
    - destruct (apply_tagged_by_age t op prev Hs Hb) as [Hs' Hb'].
      now apply IH. }
  apply G; constructor.
Qed.

Lemma by_age_split (l1 l2 : list (nat * Product)) (e e' : nat * Product) :
  by_age (l1 ++ e :: l2) -> In e' l2 -> fst e < fst e'.
Proof.
  unfold by_age. induction l1 as [|x l1 IH]; simpl; intros H Hin.
  - inversion H as [|? ? _ Hx]; subst. rewrite Forall_forall in Hx. now apply Hx.
  - inversion H; subst. now apply IH.
Qed.

Lemma find_map {A B : Type} (f : B -> bool) (g : A -> B) (l : list A) :
  find f (map g l) = option_map g (find (fun x => f (g x)) l).
Proof.
  induction l as [|x l IH]; simpl; [reflexivity|].
  destruct (f (g x)); [reflexivity | exact IH].
Qed.

(** C4. [findByBarcode] returns the first product in store order whose
    barcode equals the argument, and [None] (no error) when no product has
    it.  After any sequence of operations the product returned is the entry
    that was added first among the entries of the catalog with that barcode:
    its add comes no later in the sequence than the add of any of them.  In
    terms of ids, when the added ids are pairwise distinct, its id was added
    before the id of every other product with the same barcode. *)
Theorem findByBarcode_first_in_insertion_order :
  (forall (products : list Product) (b : string),
      match findByBarcode products b with
      | Some p => exists l1 l2, products = l1 ++ p :: l2 /\
                                Product.barcode p = b /\
                                forall q, In q l1 -> Product.barcode q <> b
      | None => forall q, In q products -> Product.barcode q <> b
      end) /\
  (forall (ops : list Op) (b : string) (p : Product),
      findByBarcode (run ops) b = Some p ->
      exists t, In (t, p) (run_tagged ops) /\
                (exists p0, nth_error ops t = Some (Add p0)) /\
                forall t' q, In (t', q) (run_tagged ops) ->
                             Product.barcode q = b -> t <= t') /\
  (forall (ops : list Op) (b : string) (p q : Product),
      NoDup (added_ids ops) ->
      findByBarcode (run ops) b = Some p ->
      In q (run ops) -> Product.barcode q = b -> q <> p ->
      added_before ops (Product.id p) (Product.id q)).
Proof.
  split; [|split].
  - intros l b. unfold findByBarcode.
    pose proof (find_first (fun p => Product.barcode p =? b) l) as H.
    destruct (find _ l) as [p|].
    + destruct H as [l1 [l2 [E [Fp H]]]]. exists l1, l2.
      repeat split; [exact E | now apply String.eqb_eq|].
      intros q Hq. apply String.eqb_neq. now apply H.
    + intros q Hq. apply String.eqb_neq. now apply H.
  - intros ops b p Hfind. unfold findByBarcode in Hfind.
    rewrite <- run_tagged_erase, find_map in Hfind.
    pose proof (find_first (fun e => Product.barcode (snd e) =? b)
                           (run_tagged ops)) as H.
    destruct (find _ (run_tagged ops)) as [[t p']|]; [|discriminate].
    injection Hfind as ->. destruct H as [l1 [l2 [E [_ H1]]]].
    assert (Hin : In (t, p) (run_tagged ops)).
    { rewrite E. apply in_or_app. right. now left. }
    exists t. split; [exact Hin | split; [now apply (run_tagged_origin ops t p)|]].
    intros t' q Hq Hb. rewrite E in Hq.
    apply in_app_or in Hq. destruct Hq as [Hq|[Hq|Hq]].
    + apply H1 in Hq. simpl in Hq. rewrite Hb, String.eqb_refl in Hq. discriminate.
    + injection Hq as <- _. apply le_n.
    + pose proof (run_tagged_by_age ops) as Hs. rewrite E in Hs.
      apply Nat.lt_le_incl. exact (by_age_split _ _ _ _ Hs Hq).
  - intros ops b p q ND Hfind Hq Hb Hneq. unfold findByBarcode in Hfind.
    pose proof (find_first (fun p => Product.barcode p =? b) (run ops)) as H.
    rewrite Hfind in H. destruct H as [l1 [l2 [E [_ H1]]]].
    assert (Hq2 : In q l2).
    { rewrite E in Hq. apply in_app_or in Hq. destruct Hq as [Hq|[Hq|Hq]].
      - apply H1 in Hq. rewrite Hb, String.eqb_refl in Hq. discriminate.
      - now destruct Hneq.
      - exact Hq. }
    pose proof (run_ids_order ops ND) as O. rewrite E, map_app in O. simpl in O.
    symmetry in O. unfold added_before.
    apply (filter_keeps_order _ _ _ _ _ (Product.id q) O). now apply in_map.
Qed.

Lemma findByBarcode_first_in_insertion_order_witness :
  let ops := [Add cola; Add chips; Add gum] in
  NoDup (added_ids ops) /\
  findByBarcode (run ops) "690001" = Some cola /\
  added_before ops "p1" "p3".
Proof.
  intro ops.
  assert (ND : NoDup (added_ids ops)).
  { simpl. repeat constructor; simpl; intuition discriminate. }
  split; [exact ND | split; [reflexivity|]].
  apply (proj2 (proj2 findByBarcode_first_in_insertion_order)
           ops "690001" cola gum ND);
    [reflexivity | simpl; tauto | reflexivity | discriminate].
Defined.

(* ------------------------------------------------------------------ *)
(** ** Import and load *)

Lemma parse_numbers_sample :
  JSON_parse "[1, 2]" = Some (JArray [JNumber 1%float; JNumber 2%float]).
Proof. vm_compute. reflexivity. Qed.

(** C1, as stated, fails: the payload [[1, 2]] is a sequence, but not of
    product-shaped records; import accepts it and replaces the catalog. *)
Lemma importData_accepts_non_products : ~ import_checks_product_shape.
Proof.
  intros H.
  specialize (H "[1, 2]" (Runtime.mk (catalog [cola]) None [])).
  rewrite parse_numbers_sample in H. destruct (H eq_refl) as [F _].
  unfold importData in F. rewrite parse_numbers_sample in F. discriminate.
Qed.

Lemma product_sequence_isArray (data : value) :
  product_sequence data = true -> Array_isArray data = true.
Proof. destruct data; simpl; intros H; (discriminate || reflexivity). Qed.

(** C1 (amended). Import fails exactly when the payload does not parse or
    its top-level value is not an array; the products cell and the storage
    are then untouched.  Otherwise it succeeds and the products cell becomes
    the parsed array as a whole, whatever its elements are; in particular a
    payload holding a sequence of product-shaped records is imported. *)
Theorem importData_replace_or_reject (payload : string) (st : Runtime.t) :
  ((JSON_parse payload = None \/
    exists data, JSON_parse payload = Some data /\ Array_isArray data = false) ->
     fst (importData payload st) = false /\
     Runtime.products (snd (importData payload st)) = Runtime.products st /\
     Runtime.inventory_data (snd (importData payload st)) =
       Runtime.inventory_data st) /\
  (forall data, JSON_parse payload = Some data -> Array_isArray data = true ->
     importData payload st = (true, setProductsRaw data st)) /\
  (forall data, JSON_parse payload = Some data -> product_sequence data = true ->
     importData payload st = (true, setProductsRaw data st)).
Proof.
  unfold importData. split; [|split].
  - intros [E | [data [E A]]]; rewrite E; [|rewrite A]; repeat split.
  - intros data E A. now rewrite E, A.
  - intros data E A. now rewrite E, (product_sequence_isArray _ A).
Qed.

Lemma importData_replace_or_reject_witness :
  let st := Runtime.mk (catalog [cola]) None [] in
  (fst (importData "[1, 2" st) = false /\
   Runtime.products (snd (importData "[1, 2" st)) = catalog [cola]) /\
  (fst (importData "{}" st) = false /\
   Runtime.products (snd (importData "{}" st)) = catalog [cola]) /\
  importData "[]" st = (true, setProductsRaw (catalog []) st).
Proof.
  intro st. split; [|split].
  - destruct (proj1 (importData_replace_or_reject "[1, 2" st)) as [A [B _]];
      [left; vm_compute; reflexivity | split; [exact A | exact B]].
  - destruct (proj1 (importData_replace_or_reject "{}" st)) as [A [B _]];
      [right; exists (JObject []); split; vm_compute; reflexivity
      | split; [exact A | exact B]].
  - apply (proj2 (proj2 (importData_replace_or_reject "[]" st)));
      vm_compute; reflexivity.
Defined.

Lemma JSON_parse_empty : JSON_parse "" = None.
Proof. reflexivity. Qed.

Lemma load_parsed (s : string) (data : value) :
  JSON_parse s = Some data -> Runtime.products (load (mount (Some s))) = data.
Proof.
  intros E. unfold load. simpl.
  destruct (String.eqb_spec s "") as [->|_].
  - rewrite JSON_parse_empty in E. discriminate.
  - now rewrite E.
Qed.



(* ------------------------------------------------------------------ *)
(** ** Reading back what [JSON.stringify] wrote *)

Lemma skip_ws_blank (w s : text) :
  forallb is_ws w = true -> skip_ws (w ++ s) = skip_ws s.
Proof.
  induction w as [|c w IH]; simpl; [reflexivity|].
  intros H. apply andb_true_iff in H. destruct H as [Hc Hw].
  rewrite Hc. now apply IH.
Qed.

Lemma skip_ws_start (c : ascii) (s : text) :
  is_ws c = false -> skip_ws (c :: s) = c :: s.
Proof. simpl. now intros ->. Qed.

Lemma span_token (p : ascii -> bool) (tok rest : text) :
  forallb p tok = true ->
  match rest with [] => True | c :: _ => p c = false end ->
  span p (tok ++ rest) = (tok, rest).
Proof.
  intros Ht Hr. induction tok as [|c tok IH]; simpl.
  - destruct rest as [|c r]; simpl; [reflexivity | now rewrite Hr].
  - simpl in Ht. apply andb_true_iff in Ht. destruct Ht as [Hc Ht].
    now rewrite Hc, (IH Ht).
Qed.

Lemma value_start_not_ws (c : ascii) :
  value_start c = true ->
  is_ws c = false /\ (c =? "]")%char = false /\ (c =? "}")%char = false.
Proof. each_char c; intros H; try discriminate H; repeat split. Qed.

Lemma number_start_dispatch (c : ascii) :
  is_digit c || (c =? "-")%char = true ->
  is_ws c = false /\ (c =? "[")%char = false /\ (c =? "{")%char = false /\
  (c =? DQUOTE)%char = false /\ (c =? "n")%char = false /\
  (c =? "t")%char = false /\ (c =? "f")%char = false /\
  is_number_char c = true.
Proof. each_char c; intros H; try discriminate H; repeat split. Qed.

Lemma parse_string_body_char (c : ascii) (s : text) :
  parse_string_body (quote_char c ++ s) = prepend [c] (parse_string_body s).
Proof. each_char c; reflexivity. Qed.

Lemma parse_string_body_quote (t rest : text) :
  parse_string_body (flat_map quote_char t ++ DQUOTE :: rest) = Some (t, rest).
Proof.
  induction t as [|c t IH]; [reflexivity|].
  simpl flat_map. rewrite <- app_assoc, parse_string_body_char, IH. reflexivity.
Qed.

Lemma chars_string (t : text) : chars (string_of_list_ascii t) = t.
Proof. apply list_ascii_of_string_of_list_ascii. Qed.

Lemma string_chars (s : string) : string_of_list_ascii (chars s) = s.
Proof. apply string_of_list_ascii_of_string. Qed.

Lemma parse_value_S (fuel : nat) (s : text) :
  parse_value (S fuel) s =
  match skip_ws s with
  | [] => None
  | c :: r =>
      if (c =? "[")%char then
        match skip_ws r with
        | [] => None
        | c' :: r' =>
            if (c' =? "]")%char then Some (JArray [], r')
            else match parse_elements fuel (c' :: r') with
                 | Some (vs, rest) => Some (JArray vs, rest)
                 | None => None
                 end
        end
      else if (c =? "{")%char then
        match skip_ws r with
        | [] => None
        | c' :: r' =>
            if (c' =? "}")%char then Some (JObject [], r')
            else match parse_members fuel (c' :: r') [] with
                 | Some (ms, rest) => Some (JObject ms, rest)
                 | None => None
                 end
        end
      else if (c =? DQUOTE)%char then
        match parse_string_body r with
        | Some (t, rest) => Some (JString (string_of_list_ascii t), rest)
        | None => None
        end
      else if (c =? "n")%char then
        option_map (pair JNull) (strip_prefix (chars "ull") r)
      else if (c =? "t")%char then
        option_map (pair (JBool true)) (strip_prefix (chars "rue") r)
      else if (c =? "f")%char then
        option_map (pair (JBool false)) (strip_prefix (chars "alse") r)
      else if is_digit c || (c =? "-")%char then
        let (tok, rest) := span is_number_char (c :: r) in
        match parse_number_token tok with
        | Some x => Some (JNumber x, rest)
        | None => None
        end
      else None
  end.
Proof. reflexivity. Qed.

Lemma parse_elements_S (fuel : nat) (s : text) :
  parse_elements (S fuel) s =
  match parse_value fuel s with
  | Some (v, r) =>
      match skip_ws r with
      | [] => None
      | c :: r' =>
          if (c =? ",")%char then
            match parse_elements fuel r' with
            | Some (vs, rest) => Some (v :: vs, rest)
            | None => None
            end
          else if (c =? "]")%char then Some ([v], r')
          else None
      end
  | None => None
  end.
Proof. reflexivity. Qed.

Lemma parse_members_S (fuel : nat) (s : text) (acc : list (string * value)) :
  parse_members (S fuel) s acc =
  match skip_ws s with
  | [] => None
  | q :: r =>
      if (q =? DQUOTE)%char then
        match parse_string_body r with
        | Some (k, r1) =>
            match skip_ws r1 with
            | [] => None
            | c1 :: r2 =>
                if (c1 =? ":")%char then
                  match parse_value fuel r2 with
                  | Some (v, r3) =>
                      let acc' := obj_set (string_of_list_ascii k) v acc in
                      match skip_ws r3 with
                      | [] => None
                      | c3 :: r4 =>
                          if (c3 =? ",")%char then parse_members fuel r4 acc'
                          else if (c3 =? "}")%char then Some (acc', r4)
                          else None
                      end
                  | None => None
                  end
                else None
            end
        | None => None
        end
      else None
  end.
Proof. reflexivity. Qed.

Section RoundTrip.

Variable gap : text.
Hypothesis gap_blank : forallb is_ws gap = true.

Lemma newline_blank (indent : text) :
  forallb is_ws indent = true -> forallb is_ws (newline gap indent) = true.
Proof. unfold newline. destruct gap; [reflexivity | simpl; auto]. Qed.

Lemma indent_blank (indent : text) :
  forallb is_ws indent = true -> forallb is_ws (indent ++ gap) = true.
Proof. intros H. rewrite forallb_app, H. exact gap_blank. Qed.

Lemma newline_delimited (indent : text) (c : ascii) (rest : text) :
  is_number_char c = false -> delimited (newline gap indent ++ c :: rest).
Proof. unfold newline. destruct gap; simpl; auto. Qed.

Lemma colon_then (s : text) :
  exists w, forallb is_ws w = true /\ colon gap ++ s = ":"%char :: w ++ s.
Proof. unfold colon. destruct gap; [now exists [] | now exists [" "%char]]. Qed.

Lemma serialize_start (indent : text) (v : value) :
  JSON_safe v ->
  exists c t, serialize gap indent v = c :: t /\ value_start c = true.
Proof.
  destruct v as [|[]|x|s|[|y l]|[|[k y] ms]]; simpl; intros H;
    try (eexists; eexists; split; [reflexivity | reflexivity]).
  destruct H as [F [T _]]. rewrite F.
  destruct (Number_toString x) as [|c r]; [discriminate|].
  exists c, r. split; [reflexivity|]. simpl in T. unfold value_start.
  apply andb_true_iff in T. destruct T as [T _]. now rewrite T.
Qed.

Lemma parse_elements_serialized (F : nat) :
  (forall m, m < F -> reads_value gap m) ->
  forall (xs : list value) (x : value) (n : nat) (w indent stepback rest : text),
    n < F -> S (size x + esize xs) < n ->
    JSON_safe x -> all_safe xs ->
    forallb is_ws indent = true -> forallb is_ws stepback = true ->
    forallb is_ws w = true ->
    parse_elements n
      (w ++ serialize gap indent x
         ++ flat_map (fun y => ","%char :: newline gap indent
                                 ++ serialize gap indent y) xs
         ++ newline gap stepback ++ "]"%char :: rest)
    = Some (x :: xs, rest).
Proof.
  intros IH xs. induction xs as [|y ys IHxs];
    intros x n w indent stepback rest Hn Hsz Hx Hxs Hi Hs Hw;
    (destruct n as [|n]; [lia|]); rewrite parse_elements_S.
  - simpl flat_map. simpl app at 3.
    rewrite (IH n) by (simpl in *; (lia || auto using newline_delimited)).
    rewrite skip_ws_blank by now apply newline_blank.
    reflexivity.
  - cbn [flat_map]. rewrite <- !app_assoc, <- !app_comm_cons.
    rewrite (IH n) by (simpl in *; (lia || tauto || reflexivity)).
    rewrite skip_ws_start by reflexivity.
    replace ((","%char =? ",")%char) with true by reflexivity.
    rewrite <- app_assoc.
    rewrite (IHxs y n (newline gap indent) indent stepback rest);
      simpl in *; try (lia || tauto || reflexivity).
    now apply newline_blank.
Qed.

Lemma parse_key (k : string) (s : text) :
  parse_string_body ((flat_map quote_char (chars k) ++ [DQUOTE]) ++ s) =
  Some (chars k, s).
Proof. rewrite <- app_assoc. apply parse_string_body_quote. Qed.

Lemma parse_members_serialized (F : nat) :
  (forall m, m < F -> reads_value gap m) ->
  forall (ms : list (string * value)) (k : string) (x : value) (n : nat)
         (w indent stepback rest : text) (acc : list (string * value)),
    n < F -> S (size x + msize ms) < n ->
    JSON_safe x -> members_safe ms ->
    forallb is_ws indent = true -> forallb is_ws stepback = true ->
    forallb is_ws w = true ->
    parse_members n
      (w ++ quote k ++ colon gap ++ serialize gap indent x
         ++ flat_map (fun kv => let '(k', y) := kv in
                                ","%char :: newline gap indent ++ quote k'
                                  ++ colon gap ++ serialize gap indent y) ms
         ++ newline gap stepback ++ "}"%char :: rest) acc
    = Some (fold_left (fun acc kv => obj_set (fst kv) (snd kv) acc)
                      ((k, x) :: ms) acc, rest).
Proof.
  intros IH ms.
  induction ms as [|[k' y] ms IHms];
    intros k x n w indent stepback rest acc Hn Hsz Hx Hms Hi Hs Hw;
    (destruct n as [|n]; [lia|]); rewrite parse_members_S;
    rewrite skip_ws_blank by exact Hw; unfold quote at 1;
    rewrite <- ?app_assoc, <- ?app_comm_cons;
    rewrite skip_ws_start by reflexivity;
    replace ((DQUOTE =? DQUOTE)%char) with true by reflexivity;
    rewrite parse_key;
    match goal with |- context [colon gap ++ ?S] =>
      destruct (colon_then S) as [cw [Hcw Ec]]; rewrite Ec; clear Ec
    end;
    rewrite skip_ws_start by reflexivity;
    replace ((":"%char =? ":")%char) with true by reflexivity;
    rewrite string_chars.
  - cbn [flat_map]. simpl app at 3.
    rewrite (IH n) by (simpl in *; (lia || auto using newline_delimited)).
    cbv zeta. rewrite skip_ws_blank by now apply newline_blank.
    reflexivity.
  - cbn [flat_map]. rewrite <- ?app_assoc, <- ?app_comm_cons.
    rewrite (IH n) by (simpl in *; (lia || tauto || reflexivity)).
    cbv zeta. rewrite skip_ws_start by reflexivity.
    replace ((","%char =? ",")%char) with true by reflexivity.
    rewrite <- !app_assoc.
    rewrite (IHms k' y n (newline gap indent) indent stepback rest);
      simpl in *; try (lia || tauto || reflexivity).
    now apply newline_blank.
Qed.

Lemma start_of_value (indent : text) (v : value) (s : text) :
  JSON_safe v ->
  exists c t, serialize gap indent v ++ s = c :: t /\
              is_ws c = false /\ (c =? "]")%char = false /\
              (c =? "}")%char = false.
Proof.
  intros H. destruct (serialize_start indent v H) as [c [t [E Hc]]].
  exists c, (t ++ s). rewrite E. split; [reflexivity|].
  now apply value_start_not_ws.
Qed.

(** Whatever the indentation and the text that follows, with enough fuel
    the parser reads a serialized safe value back and stops after it. *)
Lemma parse_serialize (fuel : nat) : reads_value gap fuel.
Proof.
  induction fuel as [fuel IH] using lt_wf_ind.
  intros v indent w rest Hsz Hv Hi Hw Hrest.
  destruct fuel as [|fuel]; [lia|].
  rewrite parse_value_S, skip_ws_blank by exact Hw.
  destruct v as [|[]|x|s|[|y l]|[|[k y] ms]]; try reflexivity.
  - (* number *)
    destruct Hv as [Fx [Tx Px]]. simpl serialize. rewrite Fx.
    destruct (Number_toString x) as [|c r] eqn:E; [discriminate|].
    simpl in Tx. apply andb_true_iff in Tx. destruct Tx as [Tc Tr].
    destruct (number_start_dispatch c Tc)
      as [W [B1 [B2 [B3 [B4 [B5 [B6 N]]]]]]].
    rewrite <- app_comm_cons, skip_ws_start by exact W.
    rewrite B1, B2, B3, B4, B5, B6, Tc.
    rewrite (app_comm_cons r rest c), span_token, Px; [reflexivity | | exact Hrest].
    simpl. now rewrite N, Tr.
  - (* string *)
    simpl serialize. unfold quote. rewrite <- app_comm_cons.
    rewrite skip_ws_start by reflexivity.
    replace ((DQUOTE =? DQUOTE)%char) with true by reflexivity.
    change (DQUOTE =? "[")%char with false. change (DQUOTE =? "{")%char with false.
    cbv iota. rewrite parse_key, string_chars. reflexivity.
  - (* non-empty array *)
    cbn [serialize]. rewrite <- app_comm_cons.
    rewrite skip_ws_start by reflexivity.
    change ("["%char =? "[")%char with true. cbv iota.
    rewrite <- !app_assoc.
    rewrite skip_ws_blank by (apply newline_blank; now apply indent_blank).
    destruct Hv as [Hy Hl].
    change (["]"%char] ++ rest) with ("]"%char :: rest).
    match goal with |- context [skip_ws (serialize gap ?I y ++ ?T)] =>
      destruct (start_of_value I y T Hy) as [c [t [E [W [B _]]]]];
      pose proof (parse_elements_serialized (S fuel) IH l y fuel [] I indent rest)
        as P
    end.
    cbn [app] in P. rewrite E in *.
    rewrite skip_ws_start, B by exact W.
    rewrite P;
      [reflexivity | lia | unfold esize; simpl in Hsz; lia | exact Hy | exact Hl
      | now apply indent_blank | exact Hi | reflexivity].
  - (* non-empty object *)
    cbn [serialize]. rewrite <- app_comm_cons.
    rewrite skip_ws_start by reflexivity.
    change ("{"%char =? "[")%char with false.
    change ("{"%char =? "{")%char with true. cbv iota.
    rewrite <- !app_assoc.
    rewrite skip_ws_blank by (apply newline_blank; now apply indent_blank).
    destruct Hv as [Hc [Hy Hms]].
    change (["}"%char] ++ rest) with ("}"%char :: rest).
    match goal with |- context [skip_ws (quote k ++ ?T)] =>
      pose proof (parse_members_serialized (S fuel) IH ms k y fuel []
                    (indent ++ gap) indent rest []) as P
    end.
    cbn [app] in P. unfold quote at 1. unfold quote at 1 in P.
    rewrite <- !app_comm_cons in *.
    rewrite skip_ws_start by reflexivity.
    change (DQUOTE =? "}")%char with false. cbv iota.
    rewrite P;
      [ | lia | unfold msize; simpl in Hsz; lia | exact Hy | exact Hms
      | now apply indent_blank | exact Hi | reflexivity].
    unfold canonical in Hc. now rewrite Hc.
Qed.

End RoundTrip.

Lemma size_positive (v : value) : 0 < size v.
Proof. destruct v; simpl; lia. Qed.

Lemma size_le_length (gap : text) (n : nat) :
  forall (v : value) (indent : text),
    size v <= n -> JSON_safe v ->
    size v <= List.length (serialize gap indent v).
Proof.
  induction n as [|n IH]; intros v indent Hn Hv.
  - pose proof (size_positive v). lia.
  - destruct v as [|[]|x|s|[|y l]|[|[k y] ms]]; try (simpl; lia).
    + destruct Hv as [Fx [Tx _]]. simpl. rewrite Fx.
      destruct (Number_toString x); [discriminate | simpl; lia].
    + cbn [serialize size fold_right]. cbn [size fold_right] in Hn.
      destruct Hv as [Hy Hl].
      cbn [List.length]. rewrite !length_app.
      pose proof (IH y (indent ++ gap) ltac:(lia) Hy) as Ly.
      assert (Ll : esize l <=
                   List.length
                     (flat_map (fun y0 => ","%char :: newline gap (indent ++ gap)
                                            ++ serialize gap (indent ++ gap) y0) l)).
      { assert (Hs : esize l <= n) by (unfold esize; lia).
        clear Hn Ly. revert Hs Hl. generalize (indent ++ gap) as ind.
        induction l as [|z l IHl]; intros ind Hs Hl; [simpl; lia|].
        cbn [flat_map esize fold_right] in *. destruct Hl as [Hz Hl].
        rewrite length_app. cbn [List.length]. rewrite length_app.
        pose proof (IH z ind ltac:(lia) Hz).
        pose proof (IHl ind ltac:(unfold esize; lia) Hl). unfold esize in *. lia. }
      unfold esize in Ll. cbn [List.length]. lia.
    + cbn [serialize size fold_right]. cbn [size fold_right] in Hn.
      destruct Hv as [_ [Hy Hms]].
      cbn [List.length]. rewrite !length_app.
      pose proof (IH y (indent ++ gap) ltac:(lia) Hy) as Ly.
      assert (Ll : msize ms <=
                   List.length
                     (flat_map (fun kv => let '(k', y0) := kv in
                                  ","%char :: newline gap (indent ++ gap) ++ quote k'
                                    ++ colon gap ++ serialize gap (indent ++ gap) y0)
                               ms)).
      { assert (Hs : msize ms <= n) by (unfold msize; lia).
        clear Hn Ly. revert Hs Hms. generalize (indent ++ gap) as ind.
        induction ms as [|[k' z] ms IHl]; intros ind Hs Hl; [simpl; lia|].
        cbn [flat_map msize fold_right] in *. destruct Hl as [Hz Hl].
        rewrite length_app. cbn [List.length]. rewrite !length_app.
        pose proof (IH z ind ltac:(lia) Hz).
        pose proof (IHl ind ltac:(unfold msize; lia) Hl). unfold msize in *. lia. }
      unfold msize in Ll. cbn [List.length]. lia.
Qed.

Lemma length_string_of_list_ascii (t : text) :
  String.length (string_of_list_ascii t) = List.length t.
Proof. induction t as [|c t IH]; simpl; [reflexivity | now rewrite IH]. Qed.

Lemma blank_gap (space : nat) : forallb is_ws (repeat " "%char space) = true.
Proof. induction space as [|n IH]; simpl; [reflexivity | exact IH]. Qed.

(** [JSON.parse(JSON.stringify(v, null, space))] is [v] for every safe value
    and every indentation. *)
Lemma JSON_parse_stringify (v : value) (space : nat) :
  JSON_safe v -> JSON_parse (JSON_stringify v space) = Some v.
Proof.
  intros Hv. unfold JSON_parse, JSON_stringify.
  set (gap := repeat " "%char (Nat.min space 10)).
  rewrite chars_string, length_string_of_list_ascii.
  pose proof (size_le_length gap (size v) v [] (le_n _) Hv) as L.
  pose proof (parse_serialize gap (blank_gap _)
                (2 * List.length (serialize gap [] v) + 2) v [] [] []) as P.
  cbn [app] in P. rewrite app_nil_r in P.
  rewrite P; [reflexivity | lia | exact Hv | reflexivity | reflexivity | exact I].
Qed.

(* ------------------------------------------------------------------ *)
(** ** Export, then import *)

Lemma Product_ofJS_toJS (p : Product) : Product_ofJS (Product_toJS p) = Some p.
Proof. destruct p as [i b n pr st [c|]]; reflexivity. Qed.

Lemma Product_toJS_inj (p q : Product) : Product_toJS p = Product_toJS q -> p = q.
Proof.
  intros E. apply (f_equal Product_ofJS) in E.
  rewrite !Product_ofJS_toJS in E. now injection E.
Qed.

Lemma Product_toJS_safe (p : Product) : JSON_product p -> JSON_safe (Product_toJS p).
Proof.
  intros [Hp Hs]. destruct p as [i b n pr st [c|]]; simpl in *;
    (split; [reflexivity | tauto]).
Qed.

Lemma catalog_safe (l : list Product) :
  Forall JSON_product l -> JSON_safe (catalog l).
Proof.
  unfold catalog. induction 1 as [|p l Hp _ IH]; simpl; [exact I|].
  split; [now apply Product_toJS_safe | exact IH].
Qed.

(** A catalog with an infinite price is what importing [priceless_payload]
    leaves in the store. *)
Lemma priceless_is_importable (st : Runtime.t) :
  importData priceless_payload st = (true, setProductsRaw (catalog [priceless]) st).
Proof.
  unfold importData.
  replace (JSON_parse priceless_payload) with (Some (catalog [priceless]))
    by (vm_compute; reflexivity).
  reflexivity.
Qed.



Lemma JSON_number_samples :
  Forall JSON_number [3.5; 10; 9.9; 4; 0.5; 7; 20.3; 0.1 + 0.2; 1e21; 5e-324]%float.
Proof.
  repeat (apply Forall_cons || apply Forall_nil);
    (split; [|split]); vm_compute; reflexivity.
Qed.


(* ================================================================== *)
(** * Further properties of the catalog store *)

Lemma find_snoc {A : Type} (f : A -> bool) (l : list A) (x : A) :
  find f (l ++ [x]) =
  match find f l with
  | Some y => Some y
  | None => if f x then Some x else None
  end.
Proof.
  induction l as [|y l IH]; simpl; [reflexivity|].
  destruct (f y); [reflexivity | exact IH].
Qed.

(** X1. A product just added is found by its barcode, unless an older product
    carries the same barcode: then the older one is still the one found.
    Lookups of other barcodes are not affected by the add. *)
Theorem findByBarcode_after_add (product : Product) (prev : list Product) (b : string) :
  findByBarcode (addProduct product prev) b =
  match findByBarcode prev b with
  | Some older => Some older
  | None => if Product.barcode product =? b then Some product else None
  end.
Proof.
  unfold findByBarcode, addProduct. rewrite find_snoc.
  destruct (find _ prev); reflexivity.
Qed.

Lemma deleteProduct_In (i : string) (l : list Product) (q : Product) :
  In q (deleteProduct i l) <-> In q l /\ Product.id q <> i.
Proof.
  unfold deleteProduct. rewrite filter_In, negb_true_iff, String.eqb_neq. tauto.
Qed.

(** X2. Deleting an id removes every entry with that id and nothing else,
    keeps the order of the others, and deleting it again changes nothing. *)
Theorem deleteProduct_exact (i : string) (l : list Product) :
  (forall q, In q (deleteProduct i l) <-> In q l /\ Product.id q <> i) /\
  present (deleteProduct i l) i = false /\
  deleteProduct i (deleteProduct i l) = deleteProduct i l /\
  (forall l1 l2, deleteProduct i (l1 ++ l2) = deleteProduct i l1 ++ deleteProduct i l2) /\
  List.length (deleteProduct i l) <= List.length l.
Proof.
  split; [intros q; apply deleteProduct_In | split; [|split; [|split]]].
  - rewrite present_delete, String.eqb_refl. simpl. apply andb_false_r.
  - apply deleteProduct_miss. intros p Hp. now apply deleteProduct_In in Hp.
  - intros l1 l2. unfold deleteProduct. apply filter_app.
  - unfold deleteProduct. apply filter_length_le.
Qed.

(** X3. An update never changes the length of the catalog, the ids or the
    position of any entry: the entry at each position is the update when its
    id matches and the entry that was there otherwise.  Updating twice with
    the same product is the same as updating once. *)
Theorem updateProduct_in_place (u : Product) (l : list Product) :
  List.length (updateProduct u l) = List.length l /\
  map Product.id (updateProduct u l) = map Product.id l /\
  (forall k p, nth_error l k = Some p ->
     nth_error (updateProduct u l) k =
     Some (if Product.id p =? Product.id u then u else p)) /\
  updateProduct u (updateProduct u l) = updateProduct u l.
Proof.
  split; [apply length_map | split; [apply updateProduct_ids | split]].
  - intros k p H. unfold updateProduct. now rewrite nth_error_map, H.
  - unfold updateProduct. rewrite map_map. apply map_ext. intros p.
    destruct (String.eqb_spec (Product.id p) (Product.id u)) as [E|N].
    + now rewrite String.eqb_refl.
    + apply String.eqb_neq in N. now rewrite N.
Qed.

(** X4. Update and delete commute, whatever the ids: deleting after an update
    gives the catalog that updating after the delete gives.  In particular an
    update followed by the delete of the same id is just the delete. *)
Theorem update_delete_commute (u : Product) (i : string) (l : list Product) :
  deleteProduct i (updateProduct u l) = updateProduct u (deleteProduct i l) /\
  deleteProduct (Product.id u) (updateProduct u l) = deleteProduct (Product.id u) l.
Proof.
  unfold deleteProduct, updateProduct. split.
  - induction l as [|p l IH]; simpl; [reflexivity|].
    destruct (String.eqb_spec (Product.id p) (Product.id u)) as [E|N].
    + simpl. rewrite E. destruct (Product.id u =? i) eqn:D; simpl; [exact IH|].
      rewrite E, String.eqb_refl. f_equal. exact IH.
    + simpl. destruct (Product.id p =? i) eqn:D; simpl; [exact IH|].
      apply String.eqb_neq in N. rewrite N. f_equal. exact IH.
  - induction l as [|p l IH]; simpl; [reflexivity|].
    destruct (String.eqb_spec (Product.id p) (Product.id u)) as [E|N].
    + rewrite String.eqb_refl. simpl. exact IH.
    + apply String.eqb_neq in N. rewrite N. simpl. f_equal. exact IH.
Qed.

(** X5. The ids of the catalog stay pairwise distinct under every update and
    every delete; an add keeps them distinct exactly when its id is not yet
    in the catalog. *)
Theorem unique_ids_kept (l : list Product) :
  (forall u, NoDup (map Product.id l) -> NoDup (map Product.id (updateProduct u l))) /\
  (forall i, NoDup (map Product.id l) -> NoDup (map Product.id (deleteProduct i l))) /\
  (forall p, NoDup (map Product.id (addProduct p l)) <->
             NoDup (map Product.id l) /\ ~ In (Product.id p) (map Product.id l)).
Proof.
  split; [|split].
  - intros u H. now rewrite updateProduct_ids.
  - intros i H. rewrite deleteProduct_ids. now apply NoDup_filter.
  - intros p. unfold addProduct. rewrite map_app. simpl. split.
    + intros H. apply NoDup_remove in H. now rewrite app_nil_r in H.
    + intros [H N]. apply NoDup_app; [exact H | repeat constructor; intros [] |].
      intros x Hx [<-|[]]. exact (N Hx).
Qed.

Lemma unique_ids_kept_witness :
  NoDup (map Product.id (updateProduct gum [cola; chips])) /\
  NoDup (map Product.id (deleteProduct "p1" [cola; chips])) /\
  NoDup (map Product.id (addProduct gum [cola; chips])).
Proof.
  assert (H : NoDup (map Product.id [cola; chips])).
  { simpl. repeat constructor; simpl; intuition discriminate. }
  destruct (unique_ids_kept [cola; chips]) as [HU [HD HA]].
  split; [exact (HU gum H) | split; [exact (HD "p1" H)|]].
  apply HA. split; [exact H|]. simpl. intuition discriminate.
Defined.

Lemma updateProduct_in_place_witness :
  nth_error (updateProduct (Product.mk "p2" "690002" "crisps" 8%float 4%float None)
                           [cola; chips; gum]) 1 =
  Some (Product.mk "p2" "690002" "crisps" 8%float 4%float None).
Proof.
  exact (proj1 (proj2 (proj2 (updateProduct_in_place _ [cola; chips; gum])))
               1 chips eq_refl).
Defined.

(* ================================================================== *)
(** * Further properties of the cart *)

Lemma filter_index_from {A : Type} (f : A -> nat -> bool) (l : list A) (n : nat) :
  map fst (filter (fun xi => f (fst xi) (snd xi)) (combine l (seq n (List.length l)))) =
  match l with
  | [] => []
  | x :: l' =>
      (if f x n then [x] else []) ++
      map fst (filter (fun xi => f (fst xi) (snd xi))
                      (combine l' (seq (S n) (List.length l'))))
  end.
Proof. destruct l as [|x l']; simpl; [reflexivity|]. now destruct (f x n). Qed.

Lemma removeAt_filter_from {A : Type} (l : list A) (idx n : nat) :
  map fst (filter (fun xi => negb (snd xi =? n + idx)%nat)
                  (combine l (seq n (List.length l)))) = removeAt idx l.
Proof.
  revert idx n. induction l as [|x l IH]; intros idx n; [now destruct idx|].
  rewrite (filter_index_from (fun _ i => negb (i =? n + idx)%nat)).
  destruct idx as [|idx]; simpl removeAt.
  - rewrite Nat.add_0_r, Nat.eqb_refl. simpl.
    clear IH. generalize (Nat.lt_succ_diag_r n). generalize (S n) as m.
    induction l as [|y l IHl]; intros m Hm; [reflexivity|].
    rewrite (filter_index_from (fun _ i => negb (i =? n)%nat)).
    replace (m =? n)%nat with false by (symmetry; apply Nat.eqb_neq; lia).
    simpl. f_equal. apply IHl. lia.
  - replace (n =? n + S idx)%nat with false by (symmetry; apply Nat.eqb_neq; lia).
    simpl. f_equal. replace (n + S idx) with (S n + idx) by lia. apply IH.
Qed.

(** X6. Removing the line at [idx] is the index filter of the source: inside
    the cart it drops exactly that line and keeps the others in order, one
    line fewer; at or beyond the end of the cart it changes nothing. *)
Theorem removeLine_bounds (idx : nat) (st : App) :
  cart (removeLine idx st) =
    filter_index (fun _ i => negb (i =? idx)%nat) (cart st) /\
  (idx < List.length (cart st) ->
     cart (removeLine idx st) = firstn idx (cart st) ++ skipn (S idx) (cart st) /\
     S (List.length (cart (removeLine idx st))) = List.length (cart st)) /\
  (List.length (cart st) <= idx -> removeLine idx st = st) /\
  products (removeLine idx st) = products st.
Proof.
  assert (R : forall l : list Item,
             (idx < List.length l ->
                removeAt idx l = firstn idx l ++ skipn (S idx) l /\
                S (List.length (removeAt idx l)) = List.length l) /\
             (List.length l <= idx -> removeAt idx l = l)).
  { generalize idx. clear. intros idx l. revert idx.
    induction l as [|x l IH]; intros idx; simpl.
    - split; [lia | now destruct idx].
    - destruct idx as [|idx]; simpl.
      + split; [split; reflexivity | lia].
      + destruct (IH idx) as [A B]. split.
        * intros H. destruct A as [A1 A2]; [lia|]. split; [now f_equal | lia].
        * intros H. f_equal. apply B. lia. }
  split; [|split; [|split]].
  - simpl. unfold filter_index. symmetry. apply (removeAt_filter_from (cart st) idx 0).
  - simpl. apply R.
  - intros H. destruct st as [p c s m e t]. unfold removeLine, setCart. simpl in *.
    now rewrite (proj2 (R c) H).
  - reflexivity.
Qed.

Lemma removeLine_bounds_witness :
  let st := mkApp [] [Item.mk cola 1%float; Item.mk chips 2%float] false false None [] in
  cart (removeLine 0 st) = [Item.mk chips 2%float] /\ removeLine 2 st = st.
Proof.
  intro st. destruct (removeLine_bounds 0 st) as [_ [A _]].
  destruct (removeLine_bounds 2 st) as [_ [_ [B _]]].
  split; [apply A; simpl; lia | apply B; simpl; lia].
Defined.

Lemma removeAt_NoDup {A : Type} (idx : nat) (l : list A) :
  NoDup l -> NoDup (removeAt idx l).
Proof.
  revert idx. induction l as [|x l IH]; intros idx H; [now destruct idx|].
  inversion H as [|? ? Hx Hl]; subst. destruct idx as [|idx]; simpl; [exact Hl|].
  constructor; [|now apply IH].
  intros Hin. apply Hx. clear -Hin. revert idx Hin.
  induction l as [|y l IHl]; intros idx Hin; [now destruct idx|].
  destruct idx as [|idx]; simpl in Hin; [now right|].
  destruct Hin as [->|Hin]; [now left | right; now apply (IHl idx)].
Qed.

Lemma removeAt_map {A B : Type} (f : A -> B) (idx : nat) (l : list A) :
  map f (removeAt idx l) = removeAt idx (map f l).
Proof.
  revert idx. induction l as [|x l IH]; intros idx; [now destruct idx|].
  destruct idx; simpl; [reflexivity | now rewrite IH].
Qed.

Lemma handleScan_one_line (b : string) (st : App) :
  NoDup (map line_barcode (cart st)) ->
  NoDup (map line_barcode (cart (handleScan b st))).
Proof.
  intros Hnd. rewrite handleScan_cart.
  destruct (findByBarcode (products st) b) as [product|] eqn:F; [|exact Hnd].
  rewrite (scanInto_barcodes b product _ (findByBarcode_barcode _ _ _ F)).
  destruct (find _ (cart st)) eqn:Fc; [exact Hnd|].
  apply NoDup_app; [exact Hnd | repeat constructor; intros [] |].
  intros x Hx [<-|[]]. apply in_map_iff in Hx. destruct Hx as [item [E Hin]].
  apply (proj1 (find_hit_none _ (cart st)) Fc item Hin E).
Qed.

(** X7. A cart with at most one line per barcode keeps that property through
    every sequence of events: scans, removals, clearing and catalog changes.
    From the empty cart no two lines ever carry the same barcode. *)
Theorem one_line_per_barcode (evs : list Event) (st : App) :
  NoDup (map line_barcode (cart st)) ->
  NoDup (map line_barcode (cart (steps evs st))).
Proof.
  revert st. induction evs as [|ev evs IH]; intros st H; [exact H|].
  simpl. apply IH. destruct ev; simpl; try exact H.
  - now apply handleScan_one_line.
  - rewrite removeAt_map. now apply removeAt_NoDup.
  - constructor.
Qed.

Lemma one_line_per_barcode_witness :
  NoDup (map line_barcode
             (cart (steps [ProductAdded cola; ProductAdded gum; Scanned "690001";
                           ProductDeleted "p1"; Scanned "690001"; RemoveLine 3]
                          initialApp))).
Proof. apply one_line_per_barcode. constructor. Defined.

(** X8. Checkout never touches the catalog: through every sequence of scans,
    scan button presses, removals and clearing, the products (stock levels
    included) are what they were. *)
Theorem checkout_keeps_catalog (evs : list Event) (st : App) :
  forallb (fun ev => negb (catalog_event ev)) evs = true ->
  products (steps evs st) = products st.
Proof.
  revert st. induction evs as [|ev evs IH]; intros st H; [reflexivity|].
  simpl in H. apply andb_true_iff in H. destruct H as [Hev H].
  simpl. rewrite (IH _ H).
  destruct ev; try discriminate Hev; try reflexivity.
  apply handleScan_products.
Qed.

Lemma checkout_keeps_catalog_witness :
  products (steps [Scanned "690002"; Scanned "690002"; RemoveLine 0; ClearCart]
                  (mkApp [cola; chips] [] true false None [])) = [cola; chips].
Proof. apply (checkout_keeps_catalog _ (mkApp [cola; chips] [] true false None [])). reflexivity. Defined.

(** A scan that resolves to no product changes neither the cart nor the
    catalog: it opens the form, pre-filled with the scanned barcode, an empty
    name and zero price and stock, and reports the barcode as not found. *)
Lemma handleScan_unresolved (b : string) (st : App) :
  findByBarcode (products st) b = None ->
  cart (handleScan b st) = cart st /\
  products (handleScan b st) = products st /\
  isModalOpen (handleScan b st) = true /\
  editingProduct (handleScan b st) = Some (fresh_form b) /\
  toasts (handleScan b st) = toast_error ("未找到条码: " ++ b) :: toasts st.
Proof. intros H. unfold handleScan. rewrite H. repeat split. Qed.

Lemma handleScan_unresolved_witness :
  let st := mkApp [cola] [Item.mk cola 1%float] true false None [] in
  cart (handleScan "000" st) = [Item.mk cola 1%float] /\
  editingProduct (handleScan "000" st) = Some (fresh_form "000").
Proof.
  intro st. destruct (handleScan_unresolved "000" st eq_refl) as [A [_ [_ [B _]]]].
  split; [exact A | exact B].
Defined.

(* ================================================================== *)
(** * The product form *)

(** X9. Submitting the form without a barcode or without a name (missing or
    empty), or with no form data at all, saves nothing: the whole state is
    unchanged, the form stays open and nothing is reported. *)
Theorem submit_needs_barcode_and_name (uuid : string) (st : App) :
  match editingProduct st with
  | None => True
  | Some e => falsy (Partial.barcode e) = true \/ falsy (Partial.name e) = true
  end ->
  handleAddOrUpdateProduct uuid st = Some st.
Proof.
  unfold handleAddOrUpdateProduct. destruct (editingProduct st) as [e|]; [|reflexivity].
  intros [H|H]; rewrite H; [reflexivity | now rewrite orb_true_r].
Qed.

Lemma submit_needs_barcode_and_name_witness :
  let st := handleScan "000" (mkApp [cola] [] true false None []) in
  handleAddOrUpdateProduct "u1" st = Some st /\
  handleAddOrUpdateProduct "u1" (changeName "tea" (changeBarcode "" st)) =
    Some (changeName "tea" (changeBarcode "" st)).
Proof.
  intro st. split.
  - apply submit_needs_barcode_and_name. right. reflexivity.
  - apply submit_needs_barcode_and_name. left. reflexivity.
Defined.

Lemma falsy_false (s : option string) :
  falsy s = false -> exists v, s = Some v /\ v <> "".
Proof.
  destruct s as [v|]; simpl; [|discriminate]. intros H. exists v.
  split; [reflexivity | now apply String.eqb_neq].
Qed.

(** X10. Submitting form data that has a barcode, a name, a price and a stock
    but no id adds exactly one product, at the end of the catalog, with the
    fresh identifier and the values of the form; nothing checks whether the
    barcode is already in use.  The cart is untouched, the form is closed
    and emptied and the add is reported. *)
Theorem submit_adds_product (uuid b n : string) (p s : number) (c : option string)
        (i : option string) (st : App) :
  editingProduct st = Some (Partial.mk i (Some b) (Some n) (Some p) (Some s) c) ->
  falsy i = true -> b <> "" -> n <> "" ->
  exists st',
    handleAddOrUpdateProduct uuid st = Some st' /\
    products st' = products st ++ [Product.mk uuid b n p s c] /\
    cart st' = cart st /\
    isModalOpen st' = false /\ editingProduct st' = None /\
    toasts st' = toast_success "商品已添加" :: toasts st.
Proof.
  intros E Hi Hb Hn. unfold handleAddOrUpdateProduct. rewrite E. simpl.
  apply String.eqb_neq in Hb, Hn. rewrite Hb, Hn. simpl.
  destruct i as [i|]; simpl in Hi; [rewrite Hi|];
    (eexists; split; [reflexivity | repeat split]).
Qed.

Lemma submit_adds_product_witness :
  let st := changeName "tea" (handleScan "000" (mkApp [cola] [] true false None [])) in
  exists st', handleAddOrUpdateProduct "u1" st = Some st' /\
              products st' = [cola; Product.mk "u1" "000" "tea" 0%float 0%float None].
Proof.
  intro st.
  destruct (submit_adds_product "u1" "000" "tea" 0%float 0%float None None st
              eq_refl eq_refl ltac:(discriminate) ltac:(discriminate))
    as [st' [A [B _]]].
  exists st'. split; [exact A | exact B].
Defined.



Lemma updateProduct_same (p : Product) (l : list Product) :
  NoDup (map Product.id l) -> In p l -> updateProduct p l = l.
Proof.
  unfold updateProduct. induction l as [|q l IH]; intros ND Hin; [reflexivity|].
  simpl in ND. inversion ND as [|? ? Hq Hl]; subst. simpl.
  destruct Hin as [->|Hin].
  - rewrite String.eqb_refl. f_equal. apply (updateProduct_miss l p).
    intros r Hr E. apply Hq. rewrite <- E. now apply in_map.
  - destruct (String.eqb_spec (Product.id q) (Product.id p)) as [E|_].
    + exfalso. apply Hq. rewrite E. now apply in_map.
    + f_equal. now apply IH.
Qed.

(** X12. Opening the edit form of a product of the catalog and submitting it
    unchanged leaves the catalog as it was, provided ids are pairwise
    distinct and the product has an id, a barcode and a name. *)
Theorem edit_without_change (uuid : string) (product : Product) (st : App) :
  NoDup (map Product.id (products st)) -> In product (products st) ->
  Product.id product <> "" -> Product.barcode product <> "" ->
  Product.name product <> "" ->
  exists st',
    handleAddOrUpdateProduct uuid (openEditForm product st) = Some st' /\
    products st' = products st /\ cart st' = cart st /\ isModalOpen st' = false.
Proof.
  intros ND Hin Hi Hb Hn. unfold handleAddOrUpdateProduct. simpl.
  apply String.eqb_neq in Hi, Hb, Hn. rewrite Hi, Hb, Hn. simpl.
  eexists. split; [reflexivity | repeat split]. simpl.
  destruct product as [i b n p s c]. simpl in *.
  now apply (updateProduct_same (Product.mk i b n p s c)).
Qed.

Lemma edit_without_change_witness :
  let st := mkApp [cola; chips] [] false false None [] in
  exists st', handleAddOrUpdateProduct "u1" (openEditForm chips st) = Some st' /\
              products st' = [cola; chips].
Proof.
  intro st.
  assert (ND : NoDup (map Product.id (products st))).
  { simpl. repeat constructor; simpl; intuition discriminate. }
  destruct (edit_without_change "u1" chips st ND ltac:(simpl; tauto)
              ltac:(discriminate) ltac:(discriminate) ltac:(discriminate))
    as [st' [A [B _]]].
  exists st'. split; [exact A | exact B].
Defined.

Lemma typing_frame (st : App) :
  (forall v, products (changeBarcode v st) = products st /\
             cart (changeBarcode v st) = cart st) /\
  (forall v, products (changeName v st) = products st /\
             cart (changeName v st) = cart st) /\
  (forall x, products (changePrice x st) = products st /\
             cart (changePrice x st) = cart st) /\
  (forall x, products (changeStock x st) = products st /\
             cart (changeStock x st) = cart st).
Proof. repeat split. Qed.

Lemma submit_add_result (uuid : string) (st : App) (e : Partial.t) (p : Product) :
  editingProduct st = Some e ->
  falsy (Partial.barcode e) = false -> falsy (Partial.name e) = false ->
  falsy (Partial.id e) = true -> as_Product uuid e = Some p ->
  handleAddOrUpdateProduct uuid st =
  Some (setEditingProduct None
          (setIsModalOpen false
             (toast (toast_success "商品已添加") (setProducts (addProduct p) st)))).
Proof.
  intros E Hb Hn Hi Hp. unfold handleAddOrUpdateProduct.
  rewrite E, Hb, Hn. simpl. rewrite Hp.
  destruct (Partial.id e) as [i|]; [|reflexivity].
  simpl in Hi. now rewrite Hi.
Qed.

(** X13. From an unresolved scan to a sale: when a scanned barcode is in no
    product and in no cart line, typing a name, a price and a stock into the
    form that the scan opened and submitting it adds the product with that
    barcode, and scanning the barcode again puts it in the cart, one line
    with quantity 1. *)
Theorem unresolved_scan_then_register (b n uuid : string) (x s : number) (st : App) :
  findByBarcode (products st) b = None ->
  find (hit b) (cart st) = None ->
  b <> "" -> n <> "" ->
  let product := Product.mk uuid b n x s None in
  exists st',
    acts [DoScan b; TypeName n; TypePrice x; TypeStock s; Submit uuid; DoScan b] st
      = Some st' /\
    products st' = products st ++ [product] /\
    cart st' = cart st ++ [Item.mk product 1%float] /\
    isModalOpen st' = false /\ isScanning st' = false.
Proof.
  intros Hmiss Hline Hb Hn product.
  destruct (handleScan_unresolved b st Hmiss) as [Hc [Hp [_ [He _]]]].
  set (st4 := changeStock s (changePrice x (changeName n (handleScan b st)))).
  assert (E4 : editingProduct st4 =
               Some (Partial.mk None (Some b) (Some n) (Some x) (Some s) None)).
  { unfold st4, changeStock, changePrice, changeName, setEditingProduct.
    cbn [editingProduct]. rewrite He. reflexivity. }
  apply String.eqb_neq in Hb, Hn.
  pose proof (submit_add_result uuid st4 _ product E4 Hb Hn eq_refl eq_refl) as R.
  cbn [acts act]. fold st4. rewrite R.
  set (st5 := setEditingProduct None
                (setIsModalOpen false
                   (toast (toast_success "商品已添加")
                          (setProducts (addProduct product) st4)))).
  assert (P4 : products st4 = products st /\ cart st4 = cart st).
  { unfold st4.
    destruct (proj2 (proj2 (proj2 (typing_frame
                (changePrice x (changeName n (handleScan b st)))))) s) as [-> ->].
    destruct (proj1 (proj2 (proj2 (typing_frame
                (changeName n (handleScan b st))))) x) as [-> ->].
    destruct (proj1 (proj2 (typing_frame (handleScan b st))) n) as [-> ->].
    split; assumption. }
  assert (P5 : products st5 = products st ++ [product]).
  { change (products st5) with (addProduct product (products st4)).
    now rewrite (proj1 P4). }
  assert (C5 : cart st5 = cart st).
  { change (cart st5) with (cart st4). exact (proj2 P4). }
  assert (F : findByBarcode (products st5) b = Some product).
  { rewrite P5. unfold findByBarcode in *. rewrite find_snoc, Hmiss.
    cbn [Product.barcode product]. now rewrite String.eqb_refl. }
  exists (handleScan b st5). split; [reflexivity | split; [|split; [|split]]].
  - now rewrite handleScan_products.
  - rewrite handleScan_cart, F, C5. unfold scanInto.
    unfold hit, line_barcode in Hline. now rewrite Hline.
  - unfold handleScan. rewrite F. reflexivity.
  - reflexivity.
Qed.

Lemma unresolved_scan_then_register_witness :
  let st := mkApp [cola] [Item.mk cola 2%float] true false None [] in
  exists st',
    acts [DoScan "777"; TypeName "tea"; TypePrice 1.5%float; TypeStock 3%float;
          Submit "u1"; DoScan "777"] st = Some st' /\
    cart st' = [Item.mk cola 2%float;
                Item.mk (Product.mk "u1" "777" "tea" 1.5%float 3%float None) 1%float].
Proof.
  intro st.
  destruct (unresolved_scan_then_register "777" "tea" "u1" 1.5%float 3%float st
              eq_refl eq_refl ltac:(discriminate) ltac:(discriminate))
    as [st' [A [_ [B _]]]].
  exists st'. split; [exact A | exact B].
Defined.

Lemma act_ids (a : Action) (st st1 : App) :
  act a st = Some st1 ->
  NoDup (map Product.id (products st)) ->
  (forall u, In u (submitted [a]) -> ~ In u (map Product.id (products st))) ->
  NoDup (map Product.id (products st1)) /\
  (forall x, In x (map Product.id (products st1)) ->
             In x (map Product.id (products st)) \/ In x (submitted [a])).
Proof.
  intros H ND Hfresh.
  assert (Same : products st1 = products st ->
                 NoDup (map Product.id (products st1)) /\
                 (forall x, In x (map Product.id (products st1)) ->
                            In x (map Product.id (products st)) \/ In x (submitted [a]))).
  { intros ->. split; [exact ND | tauto]. }
  destruct a; simpl in H; try (injection H as <-; apply Same; reflexivity).
  - injection H as <-. apply Same, handleScan_products.
  - destruct (nth_error (products st) k); injection H as <-; apply Same; reflexivity.
  - destruct (nth_error (products st) k) as [q|]; [|injection H as <-; now apply Same].
    unfold deleteClicked in H. destruct confirmed; injection H as <-; [|now apply Same].
    simpl. rewrite deleteProduct_ids. split; [now apply NoDup_filter|].
    intros x Hx. apply filter_In in Hx. tauto.
  - unfold handleAddOrUpdateProduct in H.
    destruct (editingProduct st) as [e|]; [|injection H as <-; now apply Same].
    destruct (falsy (Partial.barcode e) || falsy (Partial.name e));
      [injection H as <-; now apply Same|].
    cbv zeta in H.
    assert (Add : forall p, as_Product uuid e = Some p ->
              NoDup (map Product.id (addProduct p (products st))) /\
              (forall x, In x (map Product.id (addProduct p (products st))) ->
                         In x (map Product.id (products st)) \/ In x (submitted [Submit uuid]))).
    { intros p Hp. unfold as_Product in Hp.
      destruct (Partial.barcode e), (Partial.name e), (Partial.price e),
               (Partial.stock e); try discriminate Hp.
      injection Hp as <-. unfold addProduct. rewrite map_app. simpl. split.
      - apply NoDup_app; [exact ND | repeat constructor; intros [] |].
        intros x Hx [<-|[]]. apply (Hfresh uuid); [now left | exact Hx].
      - intros x Hx. apply in_app_or in Hx. simpl in *. tauto. }
    destruct (Partial.id e) as [i|].
    + destruct (i =? "").
      * destruct (as_Product uuid e) as [p|] eqn:Hp; [|discriminate H].
        injection H as <-. simpl. now apply Add.
      * destruct (as_Product i e) as [p|] eqn:Hp; [|discriminate H].
        injection H as <-. simpl. rewrite updateProduct_ids. split; [exact ND | tauto].
    + destruct (as_Product uuid e) as [p|] eqn:Hp; [|discriminate H].
      injection H as <-. simpl. now apply Add.
Qed.

Lemma submitted_cons (a : Action) (l : list Action) :
  submitted (a :: l) = submitted [a] ++ submitted l.
Proof. destruct a; reflexivity. Qed.

(** X14. Through the interface product ids stay pairwise distinct: starting
    from a catalog with distinct ids, after any sequence of scans, button
    presses, typing and submits, the ids are distinct again, as long as the
    identifiers that [crypto.randomUUID()] supplies are distinct from each
    other and from the ids already in the catalog. *)
Theorem ids_unique_through_interface (l : list Action) (st st' : App) :
  NoDup (map Product.id (products st)) ->
  NoDup (submitted l) ->
  (forall u, In u (submitted l) -> ~ In u (map Product.id (products st))) ->
  acts l st = Some st' ->
  NoDup (map Product.id (products st')).
Proof.
  revert st. induction l as [|a l IH]; intros st ND NS Hfresh H; simpl in H.
  - now injection H as <-.
  - destruct (act a st) as [st1|] eqn:Ha; [|discriminate H].
    rewrite submitted_cons in NS, Hfresh.
    destruct (act_ids a st st1 Ha ND) as [ND1 Hsub].
    { intros u Hu. apply Hfresh, in_or_app. now left. }
    apply (IH st1 ND1); [now apply NoDup_app_remove_l in NS | | exact H].
    intros u Hu Hin. destruct (Hsub u Hin) as [Hold|Hnew].
    + apply (Hfresh u); [apply in_or_app; now right | exact Hold].
    + clear -NS Hu Hnew. induction (submitted [a]) as [|y r IHr]; [destruct Hnew|].
      simpl in NS. inversion NS as [|? ? Hy Hr]; subst.
      destruct Hnew as [->|Hnew]; [apply Hy, in_or_app; now right | now apply IHr].
Qed.

Lemma ids_unique_through_interface_witness :
  exists st',
    acts [PressPlus; TypeBarcode "111"; TypeName "tea"; Submit "u1";
          DoScan "222"; TypeName "jam"; Submit "u2";
          PressEdit 0; TypeName "green tea"; Submit "u3"; PressDelete 1 true]
         initialApp = Some st' /\
    NoDup (map Product.id (products st')).
Proof.
  match goal with |- exists st', acts ?l _ = _ /\ _ => set (script := l) end.
  assert (H : exists st', acts script initialApp = Some st')
    by (eexists; vm_compute; reflexivity).
  destruct H as [st' H]. exists st'. split; [exact H|].
  apply (ids_unique_through_interface script initialApp st');
    [apply NoDup_nil | | intros u _ [] | exact H].
  simpl. repeat constructor; simpl; intuition discriminate.
Defined.

(* ================================================================== *)
(** * Persistence *)



(** X16. Unlike import, the load at start does not check that the stored value
    is an array: any stored text that parses becomes the content of the
    products cell, while the same text offered to import is rejected and
    leaves the state alone. *)
Theorem load_accepts_what_import_rejects (s : string) (data : value) (st : Runtime.t) :
  JSON_parse s = Some data -> Array_isArray data = false ->
  Runtime.products (load (mount (Some s))) = data /\
  importData s st = (false, st).
Proof.
  intros E A. split; [now apply load_parsed|].
  unfold importData. now rewrite E, A.
Qed.

Lemma load_accepts_what_import_rejects_witness :
  Runtime.products (load (mount (Some "{}"))) = JObject [] /\
  importData "{}" (mount None) = (false, mount None).
Proof.
  apply load_accepts_what_import_rejects; vm_compute; reflexivity.
Defined.

(** X17. When the stored entry is absent or does not parse, the hook starts
    with the empty catalog and its save effect then overwrites the entry with
    the text of the empty array: the unreadable data is gone. *)
Theorem unreadable_entry_is_overwritten (saved : option string) :
  saved = None \/ (exists s, saved = Some s /\ JSON_parse s = None) ->
  Runtime.products (load (mount saved)) = catalog [] /\
  Runtime.inventory_data (save (load (mount saved))) = Some "[]".
Proof.
  assert (G : Runtime.products (load (mount saved)) = catalog [] ->
              Runtime.products (load (mount saved)) = catalog [] /\
              Runtime.inventory_data (save (load (mount saved))) = Some "[]").
  { intros E. split; [exact E|]. unfold save. cbn [Runtime.inventory_data].
    now rewrite E. }
  intros [->|[s [-> E]]]; apply G; [reflexivity|].
  unfold load. simpl. destruct (s =? ""); [reflexivity | now rewrite E].
Qed.

Lemma unreadable_entry_is_overwritten_witness :
  Runtime.inventory_data (save (load (mount (Some "[{id:1}]")))) = Some "[]".
Proof.
  apply (unreadable_entry_is_overwritten (Some "[{id:1}]")).
  right. exists "[{id:1}]". split; [reflexivity | vm_compute; reflexivity].
Defined.



(* ================================================================== *)
(** * The scanner component *)

Definition camera_ok (c : Camera) : Prop :=
  rendering c = match current c with Some h => [h] | None => [] end.

Lemma scanner_cleanup_ok (c : Camera) :
  camera_ok c ->
  current (scanner_cleanup c) = None /\ rendering (scanner_cleanup c) = [] /\
  made (scanner_cleanup c) = made c.
Proof.
  unfold camera_ok, scanner_cleanup.
  destruct (current c) as [h|] eqn:E; simpl; intros H.
  - rewrite H. simpl. now rewrite Nat.eqb_refl.
  - now rewrite E.
Qed.

Lemma scanner_rerun_ok (a : bool) (c : Camera) :
  camera_ok c ->
  camera_ok (scanner_effect a (scanner_cleanup c)) /\
  current (scanner_effect a (scanner_cleanup c)) =
    (if a then Some (made c) else None).
Proof.
  intros H. destruct (scanner_cleanup_ok c H) as [Hc [Hr Hm]].
  unfold camera_ok, scanner_effect. rewrite Hc.
  destruct a; simpl; [rewrite Hr, Hm | rewrite Hc, Hr]; split; reflexivity.
Qed.

(** X19. However often the effect of the scanner component is re-run, at most
    one scanner instance is rendering at any time, namely the one the ref
    holds; there is one exactly when [active] was true at the last run; and
    after unmount every instance has been cleared and the ref is empty. *)
Theorem scanner_released (active : bool) (changes : list bool) :
  let c := scanner_mounted active changes in
  rendering c = match current c with Some h => [h] | None => [] end /\
  (current c <> None <-> last changes active = true) /\
  rendering (scanner_unmounted active changes) = [] /\
  current (scanner_unmounted active changes) = None.
Proof.
  assert (G : forall changes c a,
             camera_ok c -> (current c <> None <-> a = true) ->
             let c' := fold_left (fun c a => scanner_effect a (scanner_cleanup c))
                                 changes c in
             camera_ok c' /\ (current c' <> None <-> last changes a = true)).
  { clear. induction changes as [|b l IH]; intros c a Hok Ha; [now split|].
    destruct (scanner_rerun_ok b c Hok) as [Hok' Hcur].
    specialize (IH _ b Hok'). simpl fold_left.
    replace (last (b :: l) a) with (last l b); [apply IH|].
    - rewrite Hcur. destruct b; split; (discriminate || reflexivity || tauto).
    - clear. destruct l as [|x l]; [reflexivity|].
      change (last (b :: x :: l) a) with (last (x :: l) a).
      revert x. induction l as [|y l IHl]; intros x; [reflexivity|].
      change (last (y :: l) b = last (y :: l) a). apply IHl. }
  assert (H0 : camera_ok (scanner_effect active no_camera) /\
               (current (scanner_effect active no_camera) <> None <-> active = true)).
  { destruct active; split; try reflexivity; split;
      (discriminate || reflexivity || tauto). }
  destruct (G changes _ active (proj1 H0) (proj2 H0)) as [Hok Hlast].
  fold (scanner_mounted active changes) in Hok, Hlast.
  destruct (scanner_cleanup_ok _ Hok) as [Hc [Hr _]].
  repeat split; try assumption; apply Hlast.
Qed.
